(** * Verification of the photo renumbering script [123.mjs]

    The script lists a directory of photos, leaves every file whose name
    is a number untouched, gives the remaining photos the next free
    numbers starting at [START_NUMBER], renames them through temporary
    names and finally builds the ordered [PHOTO_STREAM] manifest.

    Modelling conventions.
    - File names are [string]s (sequences of bytes).  Directory entries
      never contain a path separator, so the [path] functions are
      modelled on separator-free names.
    - JavaScript numbers that occur in the script are file numbers and
      cursor values; they are modelled by [N] (the script stays inside
      the safe-integer range, where [Number], [String] and [++] are
      exact).
    - The directory is a finite map from names to nodes; a regular file
      carries the identity of its content so that moving and overwriting
      files can be told apart.
    - [Date.now()], [Math.random()], the order in which [readdirSync]
      lists a directory and the ICU collator behind [localeCompare] are
      inputs of the model.
    - The generated file and the console output are functions of the
      [Report] of a run; writing them is not modelled. *)

From Stdlib Require Import Ascii String DecimalString DecimalN ZArith.
From stdpp Require Import gmap strings list sorting.

Local Open Scope N_scope.

(** Inside a section a proof depends on the variables of its statement
    only, unless it says otherwise. *)
#[local] Set Default Proof Using "Type".

(** ** JavaScript string primitives *)

Module JS.

Definition isDigit (c : ascii) : bool :=
  (48 <=? N_of_ascii c) && (N_of_ascii c <=? 57).

(** [/^\d+$/.test(s)] *)
Fixpoint allDigits (s : string) : bool :=
  match s with
  | EmptyString => true
  | String c r => isDigit c && allDigits r
  end.

Definition testDigits (s : string) : bool :=
  match s with
  | EmptyString => false
  | String _ _ => allDigits s
  end.

(** [Number(s)] for a string of decimal digits; anything else is not a
    number and is mapped to [0] (the script only converts strings that
    passed [testDigits]). *)
Definition Number (s : string) : N :=
  match NilEmpty.uint_of_string s with
  | Some d => N.of_uint d
  | None => 0
  end.

(** [String(n)] *)
Definition String_ (n : N) : string :=
  NilEmpty.string_of_uint (N.to_uint n).

Definition lowerChar (c : ascii) : ascii :=
  if (65 <=? N_of_ascii c) && (N_of_ascii c <=? 90)
  then ascii_of_N (N_of_ascii c + 32)
  else c.

(** [s.toLowerCase()] on the ASCII letters. *)
Fixpoint toLowerCase (s : string) : string :=
  match s with
  | EmptyString => EmptyString
  | String c r => String (lowerChar c) (toLowerCase r)
  end.

Fixpoint repeatChar (c : ascii) (k : nat) : string :=
  match k with
  | O => EmptyString
  | S k' => String c (repeatChar c k')
  end.

(** [s.padStart(width, "0")] *)
Definition padStart (s : string) (width : nat) : string :=
  repeatChar "0"%char (width - String.length s) +:+ s.

(** [Array.prototype.sort(cmp)]: the sort is stable, and for a
    consistent comparator every stable sort returns the same array.
    [x] is placed before the first element that does not have to
    precede it. *)
Section Sort.
Context {A : Type} (cmp : A → A → Z).

Fixpoint insert (x : A) (l : list A) : list A :=
  match l with
  | [] => [x]
  | y :: l' =>
      if (cmp x y <=? 0)%Z then x :: y :: l' else y :: insert x l'
  end.

Definition sort (l : list A) : list A := foldr insert [] l.
End Sort.

End JS.

(** ** Node's [path] module on separator-free names *)

Module path.

(** Splits a name at its last dot: the part before the dot, and the
    part from the dot on. *)
Fixpoint splitLastDot (s : string) : option (string * string) :=
  match s with
  | EmptyString => None
  | String c r =>
      match splitLastDot r with
      | Some (b, e) => Some (String c b, e)
      | None =>
          if Ascii.eqb c "."%char then Some (EmptyString, s) else None
      end
  end.

(** [path.extname(name)]: from the last dot to the end; empty when
    there is no dot, when the only dot is the first character, and for
    the name [".."]. *)
Definition extname (name : string) : string :=
  match splitLastDot name with
  | None => ""
  | Some (b, e) =>
      if String.eqb b "" then ""
      else if String.eqb name ".." then ""
      else e
  end.

Fixpoint stripSuffix (suffix s : string) : option string :=
  if String.eqb s suffix then Some EmptyString
  else match s with
       | EmptyString => None
       | String c r => String c <$> stripSuffix suffix r
       end.

(** [path.basename(name, suffix)]: the name without [suffix] when the
    name ends with it; a name equal to the suffix gives the empty
    string, and an empty suffix is ignored. *)
Definition basename (name suffix : string) : string :=
  if String.eqb suffix "" then name
  else if String.eqb name suffix then ""
  else default name (stripSuffix suffix name).

End path.

(** ** Configuration constants *)

Record Config := {
  PAD : nat;
  PROTECT_MIN : N;
  PROTECT_MAX : N;
  START_NUMBER : N;
}.

(** The values written in the script. *)
Definition scriptConfig : Config :=
  {| PAD := 0; PROTECT_MIN := 1; PROTECT_MAX := 19; START_NUMBER := 20 |}.

Definition LABEL : string := "❤️".

Definition exts : list string :=
  [".jpg"; ".jpeg"; ".png"; ".webp"; ".gif"; ".avif"].

(** ** Classification of names *)

Definition isPhoto (fileName : string) : bool :=
  bool_decide (JS.toLowerCase (path.extname fileName) ∈ exts).

Definition parseLeadingNumber (fileName : string) : option N :=
  let base := path.basename fileName (path.extname fileName) in
  if JS.testDigits base then Some (JS.Number base) else None.

Definition fmtNum (cfg : Config) (n : N) : string :=
  match PAD cfg with
  | O => JS.String_ n
  | _ => JS.padStart (JS.String_ n) (PAD cfg)
  end.

Definition isProtectedFile (cfg : Config) (fileName : string) : bool :=
  match parseLeadingNumber fileName with
  | Some n => (PROTECT_MIN cfg <=? n) && (n <=? PROTECT_MAX cfg)
  | None => false
  end.

Definition isAlreadyNumbered (fileName : string) : bool :=
  bool_decide (is_Some (parseLeadingNumber fileName)).

Definition getReservedNumbers (files : list string) : gset N :=
  foldl (λ reserved f,
           match parseLeadingNumber f with
           | Some n => reserved ∪ {[ n ]}
           | None => reserved
           end) ∅ files.

(** ** The photo directory *)

(** A directory entry is a regular file, identified by its content, or
    something that is not a regular file (a subdirectory, which may be
    empty or not). *)
Inductive node :=
  | File (content : N)
  | Directory (empty : bool).

#[global] Instance node_eq_dec : EqDecision node.
Proof. solve_decision. Defined.

Abbreviation directory := (gmap string node).

(** How a sequence of renames ends: all of them went through, or one of
    them threw.  Either way the state of the directory that was reached
    is kept. *)
Inductive Outcome :=
  | Done (dir : directory)
  | Thrown (dir : directory).

Definition stateOf (o : Outcome) : directory :=
  match o with Done d | Thrown d => d end.

Module fs.

(** [dirent.isFile()] *)
Definition isFile (d : node) : bool :=
  match d with File _ => true | Directory _ => false end.

(** [fs.existsSync(path.join(PHOTOS_DIR, name))] *)
Definition existsSync (dir : directory) (name : string) : bool :=
  bool_decide (is_Some (dir !! name)).

(** [fs.renameSync(from, to)] inside the photo directory, with the
    semantics of rename(2): a missing source fails; a file replaces an
    existing file but not a directory; a directory replaces only an
    empty directory; renaming a name to itself does nothing. *)
Definition renameSync (dir : directory) (from to : string)
  : option directory :=
  match dir !! from with
  | None => None
  | Some src =>
      if decide (from = to) then Some dir
      else
        match src, dir !! to with
        | File _, Some (Directory _) => None
        | Directory _, Some (File _) => None
        | Directory _, Some (Directory false) => None
        | _, _ => Some (<[to := src]> (delete from dir))
        end
  end.

(** A sequence of [renameSync] calls; the first one that throws ends
    the sequence. *)
Fixpoint renameEach (dir : directory) (moves : list (string * string))
  : Outcome :=
  match moves with
  | [] => Done dir
  | (a, b) :: rest =>
      match renameSync dir a b with
      | Some dir' => renameEach dir' rest
      | None => Thrown dir
      end
  end.

End fs.

(** [fs.existsSync] under the name the script gives it. *)
Definition exists_ (dir : directory) (name : string) : bool :=
  fs.existsSync dir name.

(** [getAllPhotoFiles], applied to what [readdirSync] returned. *)
Definition getAllPhotoFiles (listing : list (string * node)) : list string :=
  filter (λ name, isPhoto name)
         ((λ d, d.1) <$> filter (λ d : string * node, fs.isFile d.2) listing).

(** ** The renamer *)

Record RenamePair := { from : string; to : string }.

Record TmpPair := { tp_from : string; tp_tmp : string; tp_to : string }.

(** One call of [toTempName] reads the clock and draws a random number:
    [dateNow] is [Date.now()] and [randomHex] is
    [Math.random().toString(16).slice(2)]. *)
Record Stamp := { dateNow : N; randomHex : string }.

Definition toTempName (st : Stamp) (original : string) : string :=
  "__tmp__" +:+ JS.String_ (dateNow st) +:+ "__" +:+ randomHex st
            +:+ "__" +:+ original.

(** [stamps k] is what the [k]-th call of [toTempName] observes. *)
Definition tmpPairsOf (stamps : nat → Stamp) (pairs : list RenamePair)
  : list TmpPair :=
  imap (λ k p, {| tp_from := from p;
                  tp_tmp := toTempName (stamps k) (from p);
                  tp_to := to p |}) pairs.

Definition phase1 (tmpPairs : list TmpPair) : list (string * string) :=
  (λ p, (tp_from p, tp_tmp p)) <$> tmpPairs.

Definition phase2 (tmpPairs : list TmpPair) : list (string * string) :=
  (λ p, (tp_tmp p, tp_to p)) <$> tmpPairs.

Definition renameSafely (stamps : nat → Stamp) (dir : directory)
    (pairs : list RenamePair) : Outcome :=
  let tmpPairs := tmpPairsOf stamps pairs in
  match fs.renameEach dir (phase1 tmpPairs) with
  | Done dir1 => fs.renameEach dir1 (phase2 tmpPairs)
  | Thrown dir' => Thrown dir'
  end.

(** ** The allocator *)

(** [while (reservedNumbers.has(nextNum)) nextNum++].  The loop leaves
    after at most as many rounds as there are reserved numbers, which is
    the fuel [whileReserved] gives it. *)
Fixpoint whileReservedFuel (fuel : nat) (reservedNumbers : gset N)
    (nextNum : N) : N :=
  match fuel with
  | O => nextNum
  | S fuel' =>
      if decide (nextNum ∈ reservedNumbers)
      then whileReservedFuel fuel' reservedNumbers (nextNum + 1)
      else nextNum
  end.

Definition whileReserved (reservedNumbers : gset N) (nextNum : N) : N :=
  whileReservedFuel (S (size reservedNumbers)) reservedNumbers nextNum.

Record AllocState := {
  reservedNumbers : gset N;
  nextNum : N;
  renamePairs : list RenamePair;
}.

(** One round of the loop over [toRenumber]. *)
Definition allocStep (cfg : Config) (dir : directory)
    (st : AllocState) (from_ : string) : AllocState :=
  let n := whileReserved (reservedNumbers st) (nextNum st) in
  let ext := JS.toLowerCase (path.extname from_) in
  let to_ := fmtNum cfg n +:+ ext in
  if exists_ dir to_
  then {| reservedNumbers := reservedNumbers st ∪ {[ n ]};
          nextNum := n + 1;
          renamePairs := renamePairs st |}
  else {| reservedNumbers := reservedNumbers st ∪ {[ n ]};
          nextNum := n + 1;
          renamePairs :=
            renamePairs st ++ [ {| from := from_; to := to_ |} ] |}.

Definition allocate (cfg : Config) (dir : directory)
    (reserved : gset N) (floor : N) (toRenumber : list string) : AllocState :=
  foldl (allocStep cfg dir)
        {| reservedNumbers := reserved; nextNum := floor; renamePairs := [] |}
        toRenumber.

(** ** The manifest builder *)

Record ManifestEntry := { src : string; label : string }.

(** The comparator [(a, b) => a.n - b.n] of the numbered entries. *)
Definition byNumber (a b : string * N) : Z := (Z.of_N a.2 - Z.of_N b.2)%Z.

(** What a completed run leaves behind: the two logged lists, the
    manifest and the directory. *)
Record Report := {
  protectedFiles : list string;
  renamed : list RenamePair;
  items : list ManifestEntry;
  finalDir : directory;
}.

Section Pipeline.

(** [a.localeCompare(b, undefined, {numeric: true, sensitivity: "base"})] *)
Variable naturalSort : string → string → Z.

(** The order in which [readdirSync] lists a directory. *)
Variable readdirSync : directory → list (string * node).

Variable cfg : Config.

(** The names in manifest order: files with a number by ascending
    number, then the others in natural order. *)
Definition orderedNames (files : list string) : list string :=
  let numbered :=
    omap (λ f, (λ n, (f, n)) <$> parseLeadingNumber f) files in
  let other := filter (λ f, parseLeadingNumber f = None) files in
  let numbered' := JS.sort byNumber numbered in
  let other' := JS.sort naturalSort other in
  ((λ x, x.1) <$> numbered') ++ other'.

Definition buildPhotoStream (files : list string) : list ManifestEntry :=
  (λ name, {| src := "./photos/" +:+ name; label := LABEL |})
    <$> orderedNames files.

(** ** The script *)

Definition allFilesOf (dir : directory) : list string :=
  getAllPhotoFiles (readdirSync dir).

Definition protectedFilesOf (dir : directory) : list string :=
  filter (λ f, isProtectedFile cfg f) (allFilesOf dir).

Definition alreadyNumberedOf (dir : directory) : list string :=
  filter (λ f, isAlreadyNumbered f) (allFilesOf dir).

Definition toRenumberOf (dir : directory) : list string :=
  JS.sort naturalSort
          (filter (λ f, negb (isAlreadyNumbered f)) (allFilesOf dir)).

Definition allocation (dir : directory) : AllocState :=
  allocate cfg dir (getReservedNumbers (alreadyNumberedOf dir))
           (START_NUMBER cfg) (toRenumberOf dir).

Definition renamePairsOf (dir : directory) : list RenamePair :=
  renamePairs (allocation dir).

(** Step 4: the renames, when there are any. *)
Definition renameStep (stamps : nat → Stamp) (dir : directory) : Outcome :=
  match renamePairsOf dir with
  | [] => Done dir
  | pairs => renameSafely stamps dir pairs
  end.

(** The whole run: [None] when a rename threw, otherwise what the
    script logs and writes. *)
Definition main (stamps : nat → Stamp) (dir : directory) : option Report :=
  match renameStep stamps dir with
  | Thrown _ => None
  | Done dir' =>
      Some {| protectedFiles := protectedFilesOf dir;
              renamed := renamePairsOf dir;
              items := buildPhotoStream (getAllPhotoFiles (readdirSync dir'));
              finalDir := dir' |}
  end.

End Pipeline.

(** ** The allocator as the design describes it

    A cursor starts at the floor; each candidate in turn gets the first
    cursor value that is not reserved, the value becomes reserved and
    the cursor moves past it. *)
Inductive Allocates : N → gset N → list string → list (string * N) → Prop :=
  | Allocates_nil cursor reserved :
      Allocates cursor reserved [] []
  | Allocates_cons cursor reserved c cs n rest :
      cursor ≤ n →
      n ∉ reserved →
      (∀ m, cursor ≤ m → m < n → m ∈ reserved) →
      Allocates (n + 1) (reserved ∪ {[ n ]}) cs rest →
      Allocates cursor reserved (c :: cs) ((c, n) :: rest).

(** The rename pair of a candidate that was given number [n]. *)
Definition pairOf (cfg : Config) (a : string * N) : RenamePair :=
  {| from := a.1;
     to := fmtNum cfg a.2 +:+ JS.toLowerCase (path.extname a.1) |}.

(** ** Inputs to run the model with *)

(** Comparison of names byte by byte, a consistent comparator. *)
Definition byteCompare (a b : string) : Z :=
  match String.compare a b with
  | Lt => (-1)%Z
  | Eq => 0%Z
  | Gt => 1%Z
  end.

(** A clock that advances and a fixed random draw. *)
Definition sampleStamps (k : nat) : Stamp :=
  {| dateNow := 1700000000000 + N.of_nat k; randomHex := "8f3a" |}.


(** [readdirSync] lists every entry of the directory once. *)
Definition listsDirectory (readdirSync : directory → list (string * node))
  : Prop :=
  ∀ dir, readdirSync dir ≡ₚ map_to_list dir.

(** ** Sample directories *)

(** The directory of the allocation scenario. *)
Definition scenarioDir : directory :=
  list_to_map [("5.jpg", File 1); ("vacation.png", File 2);
               ("beach.jpg", File 3); ("20.webp", File 4)].

(** A photo next to a subdirectory that bears the first free name. *)
Definition shadowedDir : directory :=
  list_to_map [("a.jpg", File 1); ("20.jpg", Directory true)].

(** A photo whose extension is written in upper case. *)
Definition upperCaseDir : directory :=
  list_to_map [("IMG_A.JPG", File 1)].

(** The report of a run that completed. *)
Definition reportOf (o : option Report) : Report :=
  default {| protectedFiles := []; renamed := []; items := [];
             finalDir := ∅ |} o.

(** ** Conditions on the inputs *)

(** Every entry whose name is a photo name with a number is a regular
    file: nothing that the scan overlooks sits on a numbered name. *)
Definition numberedAreFiles (dir : directory) : Prop :=
  ∀ name nd, dir !! name = Some nd →
    isPhoto name = true → isAlreadyNumbered name = true →
    fs.isFile nd = true.


(** [Math.random().toString(16).slice(2)] consists of hexadecimal
    digits. *)
Definition isHexDigit (c : ascii) : bool :=
  JS.isDigit c || ((97 <=? N_of_ascii c) && (N_of_ascii c <=? 102)).

Fixpoint allHex (s : string) : bool :=
  match s with
  | EmptyString => true
  | String c r => isHexDigit c && allHex r
  end.

Definition hexStamps (stamps : nat → Stamp) : Prop :=
  ∀ k, allHex (randomHex (stamps k)) = true.

Fixpoint noUnderscore (s : string) : bool :=
  match s with
  | EmptyString => true
  | String c r => negb (Ascii.eqb c "_") && noUnderscore r
  end.

(** The temporary names of a batch are names of their own: none of them
    is a source name or a target name of the batch. *)
Definition tempsApart (tmpPairs : list TmpPair) : Prop :=
  ∀ name, name ∈ tp_tmp <$> tmpPairs →
    name ∉ tp_from <$> tmpPairs ∧ name ∉ tp_to <$> tmpPairs.

(** The cyclic batch: two photos that swap their names. *)
Definition swapDir : directory :=
  list_to_map [("a.jpg", File 1); ("b.jpg", File 2)].

Definition swapPairs : list RenamePair :=
  [ {| from := "a.jpg"; to := "b.jpg" |};
    {| from := "b.jpg"; to := "a.jpg" |} ].

(** ** Notions used in the statements *)


(** A pair the allocation loop may record: it comes from a candidate,
    names a free number at or above the floor followed by the
    candidate's lower-cased extension, and names nothing that exists. *)
Definition goodPair (cfg : Config) (dir : directory) (cands : list string)
    (floor : N) (reserved : gset N) (p : RenamePair) : Prop :=
  from p ∈ cands ∧
  (∃ n, floor ≤ n ∧ (n ∉ reserved) ∧
        to p = fmtNum cfg n +:+ JS.toLowerCase (path.extname (from p))) ∧
  dir !! to p = None.

(** No candidate's target name for a free number exists already: the
    defensive check of the allocation loop does not fire. *)
Definition collisionFree (cfg : Config) (dir : directory)
    (reserved : gset N) (cands : list string) : Prop :=
  ∀ c n, c ∈ cands →
    exists_ dir (fmtNum cfg n +:+ JS.toLowerCase (path.extname c)) = true →
    n ∈ reserved.

(** Two states of the directory have the same subdirectories. *)
Definition sameDirectories (dir dir' : directory) : Prop :=
  ∀ name e,
    dir' !! name = Some (Directory e) ↔ dir !! name = Some (Directory e).

(** ** Further conditions on the inputs *)

(** No temporary name of the batch is a name of the directory. *)
Definition freshTemps (dir : directory) (tmpPairs : list TmpPair) : Prop :=
  ∀ name, name ∈ tp_tmp <$> tmpPairs → dir !! name = None.

(** Every source of the batch is a regular file of the directory. *)
Definition sourcesAreFiles (dir : directory) (pairs : list RenamePair)
  : Prop :=
  ∀ p, p ∈ pairs → ∃ c, dir !! from p = Some (File c).

(** Every target of the batch is free or is about to be freed: no entry
    of the directory has its name, or a source of the batch has. *)
Definition targetsFree (dir : directory) (pairs : list RenamePair) : Prop :=
  ∀ p, p ∈ pairs → dir !! to p = None ∨ to p ∈ from <$> pairs.

(** Every regular photo file of the directory carries a number. *)
Definition allNumbered (dir : directory) : Prop :=
  ∀ name c, dir !! name = Some (File c) →
    isPhoto name = true → isAlreadyNumbered name = true.

(** A directory with nothing to renumber. *)
Definition numberedDir : directory :=
  list_to_map [("1.jpg", File 1); ("20.png", File 2); ("notes.txt", File 3);
               ("raw", Directory false)].

(** * Properties *)

(** ** Strings and numbers *)

Section Strings.

Implicit Types (s b e : string) (c : ascii) (n : N).

Lemma append_nil_l s : "" +:+ s = s.
Proof. reflexivity. Qed.

Lemma append_cons c s1 s2 : String c s1 +:+ s2 = String c (s1 +:+ s2).
Proof. reflexivity. Qed.

Lemma append_nil_r s : s +:+ "" = s.
Proof.
  induction s as [|c s IH]; [done |]. by rewrite append_cons, IH.
Qed.

Lemma length_append s1 s2 :
  String.length (s1 +:+ s2) = (String.length s1 + String.length s2)%nat.
Proof.
  induction s1 as [|c s1 IH]; [done |]. rewrite append_cons. simpl.
  by rewrite IH.
Qed.

Lemma string_eqb_neq s1 s2 : String.eqb s1 s2 = false ↔ s1 ≠ s2.
Proof. apply String.eqb_neq. Qed.

(** *** Decimal digits *)

Lemma allDigits_string_of_uint (d : Decimal.uint) :
  JS.allDigits (NilEmpty.string_of_uint d) = true.
Proof. induction d; simpl; done. Qed.

Lemma string_of_uint_nonempty (d : Decimal.uint) :
  d ≠ Decimal.Nil → NilEmpty.string_of_uint d ≠ "".
Proof. by destruct d. Qed.

Lemma to_uint_nonnil n : N.to_uint n ≠ Decimal.Nil.
Proof.
  destruct n as [|p]; simpl; [done |].
  apply DecimalPos.Unsigned.to_uint_nonnil.
Qed.

Lemma String_nonempty n : JS.String_ n ≠ "".
Proof. apply string_of_uint_nonempty, to_uint_nonnil. Qed.

Lemma allDigits_String n : JS.allDigits (JS.String_ n) = true.
Proof. apply allDigits_string_of_uint. Qed.

Lemma testDigits_String n : JS.testDigits (JS.String_ n) = true.
Proof.
  pose proof (String_nonempty n) as Hne. pose proof (allDigits_String n).
  unfold JS.testDigits. by destruct (JS.String_ n).
Qed.

Lemma Number_String n : JS.Number (JS.String_ n) = n.
Proof.
  unfold JS.Number, JS.String_. rewrite NilEmpty.usu.
  apply DecimalN.Unsigned.of_to.
Qed.

Lemma allDigits_append s1 s2 :
  JS.allDigits (s1 +:+ s2) = JS.allDigits s1 && JS.allDigits s2.
Proof.
  induction s1 as [|c s1 IH]; [done |].
  rewrite append_cons. simpl. by rewrite IH, andb_assoc.
Qed.

Lemma allDigits_zeros k : JS.allDigits (JS.repeatChar "0" k) = true.
Proof. induction k; simpl; done. Qed.

Lemma testDigits_append_l s1 s2 :
  JS.allDigits s1 = true → JS.testDigits s2 = true →
  JS.testDigits (s1 +:+ s2) = true.
Proof.
  intros H1 H2. destruct s2 as [|c2 s2]; [done |].
  assert (JS.allDigits (s1 +:+ String c2 s2) = true) as Hall
    by (rewrite allDigits_append, H1; exact H2).
  destruct s1; [done | by rewrite append_cons in *].
Qed.

(** Leading zeros do not change the value of a digit string. *)
Lemma Number_leading_zeros k s :
  JS.Number (JS.repeatChar "0" k +:+ s) = JS.Number s.
Proof.
  induction k as [|k IH]; [done |].
  rewrite <- IH. simpl JS.repeatChar. rewrite append_cons.
  unfold JS.Number. simpl.
  by destruct (NilEmpty.uint_of_string (JS.repeatChar "0" k +:+ s)).
Qed.

Lemma testDigits_head s :
  JS.testDigits s = true →
  ∃ c r, s = String c r ∧ JS.isDigit c = true.
Proof.
  destruct s as [|c r]; simpl; [done |].
  intros [Hc _]%andb_true_iff. eauto.
Qed.

(** *** [fmtNum] *)

Lemma fmtNum_zeros cfg n :
  ∃ k, fmtNum cfg n = JS.repeatChar "0" k +:+ JS.String_ n.
Proof.
  unfold fmtNum, JS.padStart. destruct (PAD cfg); [by exists O | eauto].
Qed.

Lemma testDigits_fmtNum cfg n : JS.testDigits (fmtNum cfg n) = true.
Proof.
  destruct (fmtNum_zeros cfg n) as [k ->].
  apply testDigits_append_l; [apply allDigits_zeros | apply testDigits_String].
Qed.

Lemma Number_fmtNum cfg n : JS.Number (fmtNum cfg n) = n.
Proof.
  destruct (fmtNum_zeros cfg n) as [k ->].
  by rewrite Number_leading_zeros, Number_String.
Qed.

(** *** Extensions *)

Lemma splitLastDot_append b e' :
  path.splitLastDot e' = None →
  path.splitLastDot (b +:+ String "." e') = Some (b, String "." e').
Proof.
  intros He. induction b as [|c b IH].
  - rewrite append_nil_l. simpl. by rewrite He.
  - rewrite append_cons. simpl. by rewrite IH.
Qed.

Lemma splitLastDot_Some s b e :
  path.splitLastDot s = Some (b, e) →
  s = b +:+ e ∧ ∃ e', e = String "." e' ∧ path.splitLastDot e' = None.
Proof.
  revert b e. induction s as [|c s IH]; intros b e; simpl; [done |].
  destruct (path.splitLastDot s) as [[b0 e0]|] eqn:Hs.
  - intros [= <- <-]. destruct (IH _ _ eq_refl) as [-> He]. done.
  - destruct (Ascii.eqb c ".") eqn:Hc; [|done].
    apply Ascii.eqb_eq in Hc as ->. intros [= <- <-]. eauto.
Qed.

Lemma stripSuffix_unfold suffix s :
  path.stripSuffix suffix s =
    if String.eqb s suffix then Some EmptyString
    else match s with
         | EmptyString => None
         | String c r => String c <$> path.stripSuffix suffix r
         end.
Proof. by destruct s. Qed.

Lemma stripSuffix_append b e :
  e ≠ "" → path.stripSuffix e (b +:+ e) = Some b.
Proof.
  intros He. induction b as [|c b IH]; rewrite stripSuffix_unfold.
  - by rewrite append_nil_l, String.eqb_refl.
  - rewrite append_cons.
    assert (String.eqb (String c (b +:+ e)) e = false) as ->.
    { apply string_eqb_neq. intros Heq.
      apply (f_equal String.length) in Heq. simpl in Heq.
      rewrite length_append in Heq. lia. }
    by rewrite IH.
Qed.

Lemma basename_append b e :
  b ≠ "" → e ≠ "" → path.basename (b +:+ e) e = b.
Proof.
  intros Hb He. unfold path.basename.
  apply string_eqb_neq in He as He'. rewrite He'.
  assert (String.eqb (b +:+ e) e = false) as ->.
  { apply string_eqb_neq. intros Heq.
    apply (f_equal String.length) in Heq.
    rewrite length_append in Heq. destruct b; [done | simpl in Heq; lia]. }
  by rewrite stripSuffix_append.
Qed.

Lemma basename_empty_suffix s : path.basename s "" = s.
Proof. done. Qed.

(** The name splits into its base and its extension. *)
Lemma extname_split name :
  name = path.basename name (path.extname name) +:+ path.extname name.
Proof.
  unfold path.extname.
  destruct (path.splitLastDot name) as [[b e]|] eqn:Hs;
    [|by rewrite basename_empty_suffix, append_nil_r].
  destruct (String.eqb b "") eqn:Hb;
    [by rewrite basename_empty_suffix, append_nil_r|].
  destruct (String.eqb name "..") eqn:Hdd;
    [by rewrite basename_empty_suffix, append_nil_r|].
  apply splitLastDot_Some in Hs as [-> (e' & -> & _)].
  apply string_eqb_neq in Hb. by rewrite basename_append.
Qed.

(** A name with a number starts with a digit. *)
Lemma parseLeadingNumber_head name n :
  parseLeadingNumber name = Some n →
  ∃ c r, name = String c r ∧ JS.isDigit c = true.
Proof.
  unfold parseLeadingNumber.
  destruct (JS.testDigits _) eqn:Ht; [|done]. intros _.
  apply testDigits_head in Ht as (c & r & Hbase & Hc).
  exists c, (r +:+ path.extname name). split; [|done].
  rewrite (extname_split name) at 1. by rewrite Hbase, append_cons.
Qed.

Lemma extname_digits_ext d e' :
  JS.testDigits d = true → path.splitLastDot e' = None →
  path.extname (d +:+ String "." e') = String "." e'.
Proof.
  intros Hd He. unfold path.extname.
  rewrite (splitLastDot_append d e' He).
  apply testDigits_head in Hd as (c & r & -> & Hc).
  rewrite append_cons.
  destruct c as [[] [] [] [] [] [] [] []]; done.
Qed.

Lemma parseLeadingNumber_digits_ext d e' :
  JS.testDigits d = true → path.splitLastDot e' = None →
  parseLeadingNumber (d +:+ String "." e') = Some (JS.Number d).
Proof.
  intros Hd He. unfold parseLeadingNumber.
  rewrite (extname_digits_ext d e' Hd He).
  rewrite basename_append; [by rewrite Hd | | done].
  by destruct d.
Qed.

Lemma exts_shape ext :
  ext ∈ exts → ∃ e', ext = String "." e' ∧ path.splitLastDot e' = None
                      ∧ JS.toLowerCase ext = ext.
Proof.
  unfold exts. rewrite !elem_of_cons, elem_of_nil.
  intros [->|[->|[->|[->|[->|[->|[]]]]]]]; eexists; done.
Qed.

(** The name the allocator builds for number [n] carries that number
    and is a photo name. *)
Lemma parseLeadingNumber_target cfg n ext :
  ext ∈ exts → parseLeadingNumber (fmtNum cfg n +:+ ext) = Some n.
Proof.
  intros (e' & -> & He & _)%exts_shape.
  rewrite parseLeadingNumber_digits_ext;
    [by rewrite Number_fmtNum | apply testDigits_fmtNum | done].
Qed.

Lemma isPhoto_target cfg n ext :
  ext ∈ exts → isPhoto (fmtNum cfg n +:+ ext) = true.
Proof.
  intros Hext. destruct (exts_shape ext Hext) as (e' & -> & He & Hlow).
  unfold isPhoto.
  rewrite extname_digits_ext; [| apply testDigits_fmtNum | done].
  rewrite Hlow. by apply bool_decide_eq_true.
Qed.

Lemma isPhoto_ext name :
  isPhoto name = true → JS.toLowerCase (path.extname name) ∈ exts.
Proof. unfold isPhoto. by intros ?%bool_decide_eq_true. Qed.

Lemma isAlreadyNumbered_true name :
  isAlreadyNumbered name = true ↔ ∃ n, parseLeadingNumber name = Some n.
Proof. unfold isAlreadyNumbered. by rewrite bool_decide_eq_true. Qed.

Lemma isAlreadyNumbered_false name :
  isAlreadyNumbered name = false ↔ parseLeadingNumber name = None.
Proof.
  unfold isAlreadyNumbered. rewrite bool_decide_eq_false.
  rewrite <- eq_None_not_Some. done.
Qed.

(** Temporary names have no number. *)
Lemma toTempName_not_numbered st original :
  parseLeadingNumber (toTempName st original) = None.
Proof.
  destruct (parseLeadingNumber _) as [n|] eqn:Hp; [|done].
  apply parseLeadingNumber_head in Hp as (c & r & Heq & Hc).
  unfold toTempName in Heq. rewrite append_cons in Heq.
  injection Heq as <- _. done.
Qed.

End Strings.

(** ** Sorting *)

Section SortFacts.
Context {A : Type} (cmp : A → A → Z).

Lemma insert_Permutation x l : JS.insert cmp x l ≡ₚ x :: l.
Proof.
  induction l as [|y l IH]; simpl; [done |].
  destruct (cmp x y <=? 0)%Z; [done |].
  rewrite IH. apply Permutation_swap.
Qed.

Lemma sort_Permutation l : JS.sort cmp l ≡ₚ l.
Proof.
  induction l as [|x l IH]; simpl; [done |].
  unfold JS.sort in *. simpl. by rewrite insert_Permutation, IH.
Qed.

Lemma elem_of_sort x l : x ∈ JS.sort cmp l ↔ x ∈ l.
Proof. by rewrite sort_Permutation. Qed.




End SortFacts.


(** ** The directory under renames *)

Section Renames.

Implicit Types (dir : directory) (moves : list (string * string)).

Lemma exists_true dir name :
  exists_ dir name = true ↔ is_Some (dir !! name).
Proof. unfold exists_, fs.existsSync. apply bool_decide_eq_true. Qed.

Lemma exists_false dir name :
  exists_ dir name = false ↔ dir !! name = None.
Proof.
  unfold exists_, fs.existsSync. rewrite bool_decide_eq_false.
  by rewrite eq_None_not_Some.
Qed.

Lemma renameSync_Some dir a b dir' :
  fs.renameSync dir a b = Some dir' →
  ∃ x, dir !! a = Some x ∧
       (dir' = dir ∧ a = b ∨ dir' = <[b := x]> (delete a dir) ∧ a ≠ b).
Proof.
  unfold fs.renameSync. destruct (dir !! a) as [x|] eqn:Ha; [|done].
  destruct (decide (a = b)) as [->|Hne].
  - intros [= <-]. eauto.
  - intros H. exists x. split; [done |]. right. split; [|done].
    destruct x, (dir !! b) as [[|[]]|]; by simplify_eq.
Qed.

(** A rename only touches its two names. *)
Lemma renameSync_other dir a b dir' name :
  fs.renameSync dir a b = Some dir' →
  name ≠ a → name ≠ b → dir' !! name = dir !! name.
Proof.
  intros (x & _ & [[-> _]|[-> _]])%renameSync_Some Ha Hb; [done |].
  by rewrite lookup_insert_ne, lookup_delete_ne.
Qed.

(** What is found under a name that was not a target was there before,
    and the name was not a source. *)
Lemma renameSync_back dir a b dir' name e :
  fs.renameSync dir a b = Some dir' →
  dir' !! name = Some e → name ≠ b →
  dir !! name = Some e ∧ name ≠ a.
Proof.
  intros (x & Hx & [[-> ->]|[-> Hab]])%renameSync_Some He Hb; [done |].
  rewrite lookup_insert_ne in He by done.
  apply lookup_delete_Some in He as [? ?]. done.
Qed.

Lemma renameEach_other dir moves name :
  name ∉ moves.*1 → name ∉ moves.*2 →
  stateOf (fs.renameEach dir moves) !! name = dir !! name.
Proof.
  revert dir. induction moves as [|[a b] moves IH]; intros dir H1 H2;
    simpl; [done |].
  rewrite fmap_cons, not_elem_of_cons in H1, H2. simpl in *.
  destruct (fs.renameSync dir a b) as [dir'|] eqn:Hr; [|done].
  rewrite IH by tauto. eapply renameSync_other; [done | tauto..].
Qed.

Lemma renameEach_back dir moves dir' name e :
  fs.renameEach dir moves = Done dir' →
  dir' !! name = Some e → name ∉ moves.*2 →
  dir !! name = Some e ∧ name ∉ moves.*1.
Proof.
  revert dir. induction moves as [|[a b] moves IH]; intros dir Hr He H2;
    simpl in *.
  - injection Hr as <-. split; [done | apply not_elem_of_nil].
  - rewrite not_elem_of_cons in H2. simpl in H2.
    destruct (fs.renameSync dir a b) as [dir1|] eqn:Hab; [|done].
    destruct (IH _ Hr He) as [He1 H1]; [tauto |].
    destruct (renameSync_back _ _ _ _ _ _ Hab He1) as [? ?]; [tauto |].
    split; [done |]. rewrite not_elem_of_cons. done.
Qed.

(** The node kind under a name that is no source survives. *)
Lemma phase1_fst tmpPairs : (phase1 tmpPairs).*1 = tp_from <$> tmpPairs.
Proof. unfold phase1. rewrite <- list_fmap_compose. done. Qed.

Lemma phase1_snd tmpPairs : (phase1 tmpPairs).*2 = tp_tmp <$> tmpPairs.
Proof. unfold phase1. rewrite <- list_fmap_compose. done. Qed.

Lemma phase2_fst tmpPairs : (phase2 tmpPairs).*1 = tp_tmp <$> tmpPairs.
Proof. unfold phase2. rewrite <- list_fmap_compose. done. Qed.

Lemma phase2_snd tmpPairs : (phase2 tmpPairs).*2 = tp_to <$> tmpPairs.
Proof. unfold phase2. rewrite <- list_fmap_compose. done. Qed.

Lemma tmpPairsOf_from stamps pairs :
  tp_from <$> tmpPairsOf stamps pairs = from <$> pairs.
Proof.
  unfold tmpPairsOf. revert stamps.
  induction pairs as [|p pairs IH]; intros stamps; [done |].
  simpl. f_equal. apply (IH (stamps ∘ S)).
Qed.

Lemma tmpPairsOf_to stamps pairs :
  tp_to <$> tmpPairsOf stamps pairs = to <$> pairs.
Proof.
  unfold tmpPairsOf. revert stamps.
  induction pairs as [|p pairs IH]; intros stamps; [done |].
  simpl. f_equal. apply (IH (stamps ∘ S)).
Qed.

Lemma tmpPairsOf_tmp stamps pairs name :
  name ∈ tp_tmp <$> tmpPairsOf stamps pairs →
  ∃ st original, name = toTempName st original.
Proof.
  unfold tmpPairsOf. intros (p & -> & Hp)%list_elem_of_fmap.
  apply elem_of_lookup_imap in Hp as (k & q & -> & _). simpl. eauto.
Qed.

End Renames.

(** ** The allocator *)

Section Allocator.

Implicit Types (reserved : gset N) (st : AllocState).

Lemma whileReservedFuel_spec fuel reserved cursor :
  (size (filter (λ x, (cursor ≤ x)%N) reserved) < fuel)%nat →
  let n := whileReservedFuel fuel reserved cursor in
  (cursor ≤ n ∧ (n ∉ reserved) ∧ ∀ m, cursor ≤ m → m < n → m ∈ reserved).
Proof.
  revert cursor. induction fuel as [|fuel IH]; intros cursor Hsize;
    [lia |]. simpl.
  destruct (decide (cursor ∈ reserved)) as [Hin|Hout].
  - destruct (IH (cursor + 1)) as (Hle & Hfree & Hbelow).
    { assert (filter (λ x, cursor + 1 ≤ x) reserved
                ⊂ filter (λ x, cursor ≤ x) reserved) as Hsub.
      { split.
        - intros x. rewrite !elem_of_filter. simpl. intros [? ?].
          split; [lia | done].
        - intros Hsub. specialize (Hsub cursor).
          rewrite !elem_of_filter in Hsub. simpl in Hsub.
          assert (cursor + 1 ≤ cursor) by (apply Hsub; split; [lia | done]).
          lia. }
      apply subset_size in Hsub. lia. }
    repeat split; [lia | done |].
    intros m Hm1 Hm2. destruct (decide (m = cursor)) as [->|]; [done |].
    apply Hbelow; [lia | done].
  - repeat split; [lia | done | lia].
Qed.

(** The [while] loop stops at the first cursor value that is free. *)
Lemma whileReserved_spec reserved cursor :
  let n := whileReserved reserved cursor in
  (cursor ≤ n ∧ (n ∉ reserved) ∧ ∀ m, cursor ≤ m → m < n → m ∈ reserved).
Proof.
  apply whileReservedFuel_spec.
  assert (size (filter (λ x, (cursor ≤ x)%N) reserved) ≤ size reserved)%nat;
    [|lia].
  apply subseteq_size. intros x. rewrite elem_of_filter. tauto.
Qed.

Variables (cfg : Config) (dir : directory).

Lemma goodPair_weaken cands cands' floor floor' reserved reserved' p :
  cands ⊆ cands' → floor' ≤ floor → reserved' ⊆ reserved →
  goodPair cfg dir cands floor reserved p →
  goodPair cfg dir cands' floor' reserved' p.
Proof.
  intros Hc Hf Hr (Hfrom & (n & Hn & Hfree & Hto) & Hdir).
  split; [by apply Hc |]. split; [|done].
  exists n. repeat split; [lia | set_solver | done].
Qed.

Lemma allocStep_grows st c :
  nextNum st ≤ nextNum (allocStep cfg dir st c) ∧
  reservedNumbers st ⊆ reservedNumbers (allocStep cfg dir st c).
Proof.
  pose proof (whileReserved_spec (reservedNumbers st) (nextNum st))
    as (Hle & _ & _).
  unfold allocStep. destruct (exists_ dir _); simpl;
    (split; [lia | set_solver]).
Qed.

Lemma allocStep_pairs st c :
  renamePairs (allocStep cfg dir st c) = renamePairs st ∨
  ∃ p, renamePairs (allocStep cfg dir st c) = renamePairs st ++ [p] ∧
       goodPair cfg dir [c] (nextNum st) (reservedNumbers st) p.
Proof.
  pose proof (whileReserved_spec (reservedNumbers st) (nextNum st))
    as (Hle & Hfree & _).
  unfold allocStep. destruct (exists_ dir _) eqn:Hex; simpl; [by left |].
  right. eexists. split; [done |].
  repeat split; simpl; [by apply list_elem_of_singleton | eauto |].
  by apply exists_false.
Qed.

Lemma foldl_allocStep_pairs cands st :
  ∃ new, renamePairs (foldl (allocStep cfg dir) st cands)
         = renamePairs st ++ new ∧
         Forall (goodPair cfg dir cands (nextNum st) (reservedNumbers st))
                new ∧
         from <$> new `sublist_of` cands.
Proof.
  revert st. induction cands as [|c cands IH]; intros st; simpl.
  - exists []. by rewrite app_nil_r.
  - destruct (IH (allocStep cfg dir st c)) as (new & -> & Hgood & Hsub).
    destruct (allocStep_grows st c) as [Hnext Hres].
    assert (Forall (goodPair cfg dir (c :: cands) (nextNum st)
                      (reservedNumbers st)) new) as Hgood'.
    { eapply Forall_impl; [done |]. intros p.
      apply goodPair_weaken; [|done..]. set_solver. }
    destruct (allocStep_pairs st c) as [->|(p & -> & Hp)].
    + exists new. repeat split; [done |]. by apply sublist_cons.
    + exists (p :: new). rewrite <- app_assoc. repeat split.
      * constructor; [|done].
        eapply goodPair_weaken; [| | |done]; [set_solver | lia | done].
      * destruct Hp as (Hc%list_elem_of_singleton & _). simpl. rewrite Hc.
        by apply sublist_skip.
Qed.

Lemma allocate_pairs reserved floor cands :
  Forall (goodPair cfg dir cands floor reserved)
         (renamePairs (allocate cfg dir reserved floor cands))
  ∧ from <$> renamePairs (allocate cfg dir reserved floor cands)
      `sublist_of` cands.
Proof.
  unfold allocate.
  destruct (foldl_allocStep_pairs cands
              {| reservedNumbers := reserved; nextNum := floor;
                 renamePairs := [] |}) as (new & -> & ? & ?).
  done.
Qed.

Lemma foldl_allocStep_Allocates cands st :
  collisionFree cfg dir (reservedNumbers st) cands →
  ∃ assignment,
    Allocates (nextNum st) (reservedNumbers st) cands assignment ∧
    renamePairs (foldl (allocStep cfg dir) st cands)
    = renamePairs st ++ (pairOf cfg <$> assignment) ∧
    reservedNumbers (foldl (allocStep cfg dir) st cands)
    = reservedNumbers st ∪ list_to_set assignment.*2.
Proof.
  revert st. induction cands as [|c cands IH]; intros st Hfree; simpl.
  - exists []. split; [constructor |]. split; [by rewrite app_nil_r |].
    simpl. set_solver.
  - pose proof (whileReserved_spec (reservedNumbers st) (nextNum st))
      as (Hle & Hnew & Hbelow).
    set (n := whileReserved (reservedNumbers st) (nextNum st)) in *.
    assert (exists_ dir (fmtNum cfg n +:+ JS.toLowerCase (path.extname c))
            = false) as Hex.
    { apply not_true_is_false. intros Hex. apply Hnew.
      eapply Hfree; [|done]. by apply elem_of_cons; left. }
    assert (allocStep cfg dir st c =
              {| reservedNumbers := reservedNumbers st ∪ {[ n ]};
                 nextNum := n + 1;
                 renamePairs := renamePairs st ++ [pairOf cfg (c, n)] |})
      as ->.
    { unfold allocStep. fold n. by rewrite Hex. }
    destruct (IH {| reservedNumbers := reservedNumbers st ∪ {[ n ]};
                    nextNum := n + 1;
                    renamePairs := renamePairs st ++ [pairOf cfg (c, n)] |})
      as (rest & Hrest & Hpairs & Hres).
    { intros c' n' Hc' Hex'. simpl. apply elem_of_union_l.
      eapply Hfree; [|done]. by apply elem_of_cons; right. }
    exists ((c, n) :: rest). simpl in *. split; [by constructor |].
    split.
    + by rewrite Hpairs, <- app_assoc.
    + rewrite Hres. set_solver.
Qed.

End Allocator.

(** What the design's allocator guarantees. *)
Section AllocatesFacts.

Lemma Allocates_candidates cursor reserved cands assignment :
  Allocates cursor reserved cands assignment → assignment.*1 = cands.
Proof. induction 1; simpl; [done | by f_equal]. Qed.



End AllocatesFacts.

(** ** The scan and the classification *)

Lemma elem_of_getAllPhotoFiles listing name :
  name ∈ getAllPhotoFiles listing ↔
  isPhoto name = true ∧ ∃ nd, (name, nd) ∈ listing ∧ fs.isFile nd = true.
Proof.
  unfold getAllPhotoFiles.
  rewrite list_elem_of_filter, list_elem_of_fmap, Is_true_true.
  split.
  - intros (Hp & [n nd] & -> & Hin).
    apply list_elem_of_filter in Hin as [Hf Hin].
    apply Is_true_true in Hf. eauto.
  - intros (Hp & nd & Hin & Hf). split; [done |].
    exists (name, nd). split; [done |].
    apply list_elem_of_filter. split; [by apply Is_true_true | done].
Qed.

Lemma elem_of_getReservedNumbers files n :
  n ∈ getReservedNumbers files ↔
  ∃ f, f ∈ files ∧ parseLeadingNumber f = Some n.
Proof.
  unfold getReservedNumbers.
  assert (∀ reserved : gset N,
            n ∈ foldl (λ reserved f,
                         match parseLeadingNumber f with
                         | Some n => reserved ∪ {[ n ]}
                         | None => reserved
                         end) reserved files ↔
            n ∈ reserved ∨ ∃ f, f ∈ files ∧ parseLeadingNumber f = Some n)
    as Hgen.
  { induction files as [|f files IH]; intros reserved; simpl.
    - split; [by left |]. intros [?|(f & Hf & _)]; [done |].
      by apply elem_of_nil in Hf.
    - rewrite IH. split.
      + intros [Hin|(g & Hg & Hn)].
        * destruct (parseLeadingNumber f) as [m|] eqn:Hf; [|by left].
          apply elem_of_union in Hin as [?|Heq%elem_of_singleton];
            [by left |]. subst m.
          right. exists f. split; [by apply elem_of_cons; left | done].
        * right. exists g. split; [by apply elem_of_cons; right | done].
      + intros [Hin|(g & Hg & Hn)].
        * left. destruct (parseLeadingNumber f); [set_solver | done].
        * apply elem_of_cons in Hg as [->|Hg].
          -- left. rewrite Hn. set_solver.
          -- right. eauto. }
  rewrite Hgen. set_solver.
Qed.

Lemma isProtectedFile_numbered cfg name :
  isProtectedFile cfg name = true → isAlreadyNumbered name = true.
Proof.
  unfold isProtectedFile. intros H. apply isAlreadyNumbered_true.
  destruct (parseLeadingNumber name); [eauto | done].
Qed.

Section Scan.

Variable readdirSync : directory → list (string * node).
Variable cfg : Config.

Hypothesis Hlist : listsDirectory readdirSync.

Lemma elem_of_readdirSync dir name nd :
  (name, nd) ∈ readdirSync dir ↔ dir !! name = Some nd.
Proof using Hlist. by rewrite (Hlist dir), elem_of_map_to_list. Qed.

Lemma elem_of_allFilesOf dir name :
  name ∈ allFilesOf readdirSync dir ↔
  isPhoto name = true ∧ ∃ c, dir !! name = Some (File c).
Proof using Hlist.
  unfold allFilesOf. rewrite elem_of_getAllPhotoFiles.
  split; intros (Hp & x & Hx); (split; [done |]).
  - destruct Hx as [Hin Hf]. apply elem_of_readdirSync in Hin.
    destruct x as [c|]; [eauto | done].
  - exists (File x). split; [by apply elem_of_readdirSync | done].
Qed.

Lemma elem_of_alreadyNumberedOf dir name :
  name ∈ alreadyNumberedOf readdirSync dir ↔
  name ∈ allFilesOf readdirSync dir ∧ isAlreadyNumbered name = true.
Proof.
  unfold alreadyNumberedOf. rewrite list_elem_of_filter, Is_true_true. tauto.
Qed.

Variable naturalSort : string → string → Z.

Lemma elem_of_toRenumberOf dir name :
  name ∈ toRenumberOf naturalSort readdirSync dir ↔
  name ∈ allFilesOf readdirSync dir ∧ isAlreadyNumbered name = false.
Proof.
  unfold toRenumberOf.
  rewrite elem_of_sort, list_elem_of_filter, Is_true_true, negb_true_iff.
  tauto.
Qed.

(** The candidates are photos, so the extension that goes into the new
    name is one of the recognised ones. *)
Lemma toRenumberOf_ext dir name :
  name ∈ toRenumberOf naturalSort readdirSync dir →
  JS.toLowerCase (path.extname name) ∈ exts.
Proof using Hlist.
  intros [[Hp _]%elem_of_allFilesOf _]%elem_of_toRenumberOf.
  by apply isPhoto_ext.
Qed.

Lemma renamePairsOf_good dir :
  Forall (goodPair cfg dir (toRenumberOf naturalSort readdirSync dir)
            (START_NUMBER cfg)
            (getReservedNumbers (alreadyNumberedOf readdirSync dir)))
         (renamePairsOf naturalSort readdirSync cfg dir).
Proof. apply allocate_pairs. Qed.

(** What holds of every pair handed to the renamer. *)
Lemma renamePairsOf_facts dir p :
  p ∈ renamePairsOf naturalSort readdirSync cfg dir →
  (isPhoto (from p) = true ∧ parseLeadingNumber (from p) = None ∧
   ∃ c, dir !! from p = Some (File c)) ∧
  (∃ n, START_NUMBER cfg ≤ n ∧
        to p = fmtNum cfg n +:+ JS.toLowerCase (path.extname (from p)) ∧
        parseLeadingNumber (to p) = Some n ∧ isPhoto (to p) = true) ∧
  dir !! to p = None.
Proof using Hlist.
  intros Hp. pose proof (renamePairsOf_good dir) as Hgood.
  rewrite Forall_forall in Hgood.
  destruct (Hgood p Hp) as (Hfrom & (n & Hn & _ & Hto) & Hdir).
  pose proof (toRenumberOf_ext _ _ Hfrom) as Hext.
  apply elem_of_toRenumberOf in Hfrom as [Hall Hnum].
  apply elem_of_allFilesOf in Hall as [Hphoto Hfile].
  apply isAlreadyNumbered_false in Hnum.
  repeat split; [done.. | | done].
  exists n. rewrite Hto.
  by rewrite parseLeadingNumber_target, isPhoto_target.
Qed.

(** When every numbered photo name is a regular file, the defensive
    check of the allocator never fires. *)
Lemma numberedAreFiles_collisionFree dir :
  numberedAreFiles dir →
  collisionFree cfg dir
    (getReservedNumbers (alreadyNumberedOf readdirSync dir))
    (toRenumberOf naturalSort readdirSync dir).
Proof using Hlist.
  intros Hfiles c n Hc Hex. apply toRenumberOf_ext in Hc as Hext.
  apply exists_true in Hex as [nd Hnd].
  pose proof (isPhoto_target cfg n _ Hext) as Hphoto.
  pose proof (parseLeadingNumber_target cfg n _ Hext) as Hnum.
  assert (isAlreadyNumbered
            (fmtNum cfg n +:+ JS.toLowerCase (path.extname c)) = true)
    as Hnumbered by (apply isAlreadyNumbered_true; eauto).
  pose proof (Hfiles _ _ Hnd Hphoto Hnumbered) as Hfile.
  destruct nd as [content|]; [|done].
  apply elem_of_getReservedNumbers. eexists. split; [|exact Hnum].
  apply elem_of_alreadyNumberedOf. split; [|done].
  apply elem_of_allFilesOf. eauto.
Qed.

End Scan.

(** ** The renamer inside the run *)

Section RenamerFacts.

Implicit Types (dir : directory) (pairs : list RenamePair).

Lemma renameSafely_other stamps dir pairs name :
  name ∉ from <$> pairs → name ∉ to <$> pairs →
  (∀ st original, name ≠ toTempName st original) →
  stateOf (renameSafely stamps dir pairs) !! name = dir !! name.
Proof.
  intros Hfrom Hto Htmp. unfold renameSafely.
  assert (name ∉ tp_tmp <$> tmpPairsOf stamps pairs) as Hnot.
  { intros (st & o & ->)%tmpPairsOf_tmp. by eapply Htmp. }
  pose proof (renameEach_other dir (phase1 (tmpPairsOf stamps pairs)) name)
    as H1.
  rewrite phase1_fst, phase1_snd, tmpPairsOf_from in H1.
  specialize (H1 Hfrom Hnot).
  destruct (fs.renameEach dir _) as [dir1|dir1]; simpl in *; [|done].
  rewrite <- H1. apply renameEach_other.
  - by rewrite phase2_fst.
  - by rewrite phase2_snd, tmpPairsOf_to.
Qed.

Lemma renameSafely_back stamps dir pairs dir' name e :
  renameSafely stamps dir pairs = Done dir' →
  dir' !! name = Some e → name ∉ to <$> pairs →
  dir !! name = Some e ∧ name ∉ from <$> pairs.
Proof.
  unfold renameSafely. intros Hr He Hto.
  destruct (fs.renameEach dir _) as [dir1|dir1] eqn:H1; [|done].
  destruct (renameEach_back _ _ _ _ _ Hr He) as [He1 Htmp].
  { by rewrite phase2_snd, tmpPairsOf_to. }
  rewrite phase2_fst in Htmp.
  destruct (renameEach_back _ _ _ _ _ H1 He1) as [He0 Hfrom].
  { by rewrite phase1_snd. }
  by rewrite phase1_fst, tmpPairsOf_from in Hfrom.
Qed.

End RenamerFacts.

(** ** Number formatting and parsing *)

Lemma String_no_leading_zero n r : JS.String_ n = String "0" r → n = 0.
Proof.
  unfold JS.String_. intros Hs.
  assert (Decimal.unorm (N.to_uint n) = N.to_uint n) as Hnorm.
  { by rewrite <- DecimalN.Unsigned.to_of, DecimalN.Unsigned.of_to. }
  destruct (N.to_uint n) as [|d| | | | | | | | |] eqn:Hd; try done.
  rewrite DecimalFacts.unorm_D0 in Hnorm.
  destruct (Decimal.nzhead d) eqn:Hnz.
  - unfold Decimal.unorm in Hnorm. rewrite Hnz in Hnorm.
    injection Hnorm as <-.
    by apply DecimalN.Unsigned.to_uint_inj.
  - exfalso. rewrite DecimalFacts.unorm_nzhead in Hnorm by congruence.
    by apply DecimalFacts.nzhead_nonzero in Hnorm.
  - rewrite DecimalFacts.unorm_nzhead in Hnorm by congruence.
    rewrite Hnz in Hnorm. done.
  - rewrite DecimalFacts.unorm_nzhead in Hnorm by congruence.
    rewrite Hnz in Hnorm. done.
  - rewrite DecimalFacts.unorm_nzhead in Hnorm by congruence.
    rewrite Hnz in Hnorm. done.
  - rewrite DecimalFacts.unorm_nzhead in Hnorm by congruence.
    rewrite Hnz in Hnorm. done.
  - rewrite DecimalFacts.unorm_nzhead in Hnorm by congruence.
    rewrite Hnz in Hnorm. done.
  - rewrite DecimalFacts.unorm_nzhead in Hnorm by congruence.
    rewrite Hnz in Hnorm. done.
  - rewrite DecimalFacts.unorm_nzhead in Hnorm by congruence.
    rewrite Hnz in Hnorm. done.
  - rewrite DecimalFacts.unorm_nzhead in Hnorm by congruence.
    rewrite Hnz in Hnorm. done.
  - rewrite DecimalFacts.unorm_nzhead in Hnorm by congruence.
    rewrite Hnz in Hnorm. done.
Qed.

(** C8.  With [PAD = 3] the number 20 is written "020"; with [PAD = 0]
    every number is written as its plain decimal digits: the digits of
    [String(n)], which read back as [n] and do not start with a zero
    unless [n] is zero. *)
Theorem fmtNum_padding (cfg : Config) (n : N) :
  (PAD cfg = 3%nat → fmtNum cfg 20 = "020") ∧
  (PAD cfg = 0%nat →
     fmtNum cfg n = JS.String_ n ∧
     JS.testDigits (fmtNum cfg n) = true ∧
     JS.Number (fmtNum cfg n) = n ∧
     (∀ r, fmtNum cfg n = String "0" r → n = 0)).
Proof.
  split; intros Hpad; unfold fmtNum; rewrite Hpad; [done |].
  split; [done |]. split; [apply testDigits_String |].
  split; [apply Number_String | apply String_no_leading_zero].
Qed.

Lemma fmtNum_padding_witness :
  fmtNum {| PAD := 3; PROTECT_MIN := 1; PROTECT_MAX := 19;
            START_NUMBER := 20 |} 20 = "020" ∧
  fmtNum scriptConfig 105 = "105".
Proof.
  split.
  - apply (fmtNum_padding
             {| PAD := 3; PROTECT_MIN := 1; PROTECT_MAX := 19;
                START_NUMBER := 20 |} 0). reflexivity.
  - transitivity (JS.String_ 105); [|reflexivity].
    apply (fmtNum_padding scriptConfig 105). reflexivity.
Defined.

(** Protection is a function of the parsed number alone. *)
Lemma isProtectedFile_spec cfg name :
  isProtectedFile cfg name = true ↔
  ∃ n, parseLeadingNumber name = Some n ∧
       PROTECT_MIN cfg ≤ n ∧ n ≤ PROTECT_MAX cfg.
Proof.
  unfold isProtectedFile. destruct (parseLeadingNumber name) as [n|].
  - rewrite andb_true_iff, !N.leb_le. split; [eauto |].
    by intros (m & [= <-] & ?).
  - split; [done | by intros (? & ? & _)].
Qed.

Lemma getReservedNumbers_values files files' :
  (∀ n, Some n ∈ parseLeadingNumber <$> files ↔
        Some n ∈ parseLeadingNumber <$> files') →
  getReservedNumbers files = getReservedNumbers files'.
Proof.
  intros H. apply set_eq. intros n. rewrite !elem_of_getReservedNumbers.
  specialize (H n). rewrite !list_elem_of_fmap in H.
  split; intros (f & Hf & Hn).
  - destruct (proj1 H) as (g & ? & ?); [by exists f |]. by exists g.
  - destruct (proj2 H) as (g & ? & ?); [by exists f | by exists g].
Qed.



(** ** Subdirectories under renames *)

Section Directories.

Implicit Types (dir : directory) (moves : list (string * string)).

Lemma sameDirectories_trans dir1 dir2 dir3 :
  sameDirectories dir1 dir2 → sameDirectories dir2 dir3 →
  sameDirectories dir1 dir3.
Proof.
  intros H12 H23 name e. etrans; [apply H23 | apply H12].
Qed.

Lemma renameSync_File dir a b c dir' :
  dir !! a = Some (File c) →
  fs.renameSync dir a b = Some dir' →
  (a = b ∧ dir' = dir) ∨
  (a ≠ b ∧ (∀ e, dir !! b ≠ Some (Directory e)) ∧
   dir' = <[b := File c]> (delete a dir)).
Proof.
  unfold fs.renameSync. intros ->.
  destruct (decide (a = b)) as [->|Hne]; [intros [= <-]; by left |].
  intros H. right. split; [done |].
  destruct (dir !! b) as [[|]|]; by simplify_eq.
Qed.

Lemma renameSync_dirs dir a b dir' :
  fs.renameSync dir a b = Some dir' →
  (∀ e, dir !! a ≠ Some (Directory e)) →
  sameDirectories dir dir' ∧ ∀ e, dir !! b ≠ Some (Directory e).
Proof.
  intros Hr Ha.
  destruct (renameSync_Some _ _ _ _ Hr) as (x & Hx & _).
  destruct x as [c|e]; [|by destruct (Ha e)].
  destruct (renameSync_File _ _ _ _ _ Hx Hr)
    as [[Hab Hd]|(Hne & Hb & Hd)]; subst dir'.
  { subst b. split; [done | exact Ha]. }
  split; [|done]. intros name e.
  destruct (decide (name = b)) as [->|Hnb].
  - rewrite lookup_insert_eq. split; [done | by intros ?%Hb].
  - rewrite lookup_insert_ne by done.
    destruct (decide (name = a)) as [->|Hna].
    + rewrite lookup_delete_eq, Hx. done.
    + by rewrite lookup_delete_ne.
Qed.

Lemma renameEach_dirs moves dir :
  (∀ a e, a ∈ moves.*1 → dir !! a ≠ Some (Directory e)) →
  sameDirectories dir (stateOf (fs.renameEach dir moves)) ∧
  (∀ dir', fs.renameEach dir moves = Done dir' →
     ∀ b e, b ∈ moves.*2 → dir !! b ≠ Some (Directory e)).
Proof.
  revert dir. induction moves as [|[a b] moves IH]; intros dir Hsrc; simpl.
  - split; [done |]. intros _ _ b e Hb. by apply elem_of_nil in Hb.
  - destruct (fs.renameSync dir a b) as [dir1|] eqn:Hr; [|done].
    destruct (renameSync_dirs _ _ _ _ Hr) as [Hsame Hb].
    { intros e. apply Hsrc. by apply elem_of_cons; left. }
    destruct (IH dir1) as [Hsame1 Htargets].
    { intros a' e Ha' Hd%Hsame. eapply Hsrc; [|exact Hd].
      by apply elem_of_cons; right. }
    split.
    + by eapply sameDirectories_trans.
    + intros dir' Hdone b' e [->|Hb']%elem_of_cons; [done |].
      intros Hd%Hsame. by eapply Htargets.
Qed.

(** A batch whose sources are not subdirectories neither moves,
    replaces nor creates a subdirectory. *)
Lemma renameSafely_dirs stamps dir pairs :
  (∀ a e, a ∈ from <$> pairs → dir !! a ≠ Some (Directory e)) →
  sameDirectories dir (stateOf (renameSafely stamps dir pairs)).
Proof.
  intros Hsrc. unfold renameSafely.
  destruct (renameEach_dirs (phase1 (tmpPairsOf stamps pairs)) dir)
    as [Hsame1 Htmp].
  { intros a e. rewrite phase1_fst, tmpPairsOf_from. apply Hsrc. }
  destruct (fs.renameEach dir _) as [dir1|dir1] eqn:H1; [|done].
  simpl in Hsame1.
  destruct (renameEach_dirs (phase2 (tmpPairsOf stamps pairs)) dir1)
    as [Hsame2 _].
  { intros a e Ha Hd%Hsame1. eapply Htmp; [done | | exact Hd].
    by rewrite phase1_snd, <- phase2_fst. }
  by eapply sameDirectories_trans.
Qed.

End Directories.

(** ** The run *)

Section Run.

Variable naturalSort : string → string → Z.
Variable readdirSync : directory → list (string * node).
Variable cfg : Config.

Lemma renameStep_eq stamps dir :
  renameStep naturalSort readdirSync cfg stamps dir
  = renameSafely stamps dir (renamePairsOf naturalSort readdirSync cfg dir).
Proof. unfold renameStep. by destruct (renamePairsOf _ _ _ _). Qed.

Lemma main_Some stamps dir r :
  main naturalSort readdirSync cfg stamps dir = Some r →
  renameStep naturalSort readdirSync cfg stamps dir = Done (finalDir r) ∧
  renamed r = renamePairsOf naturalSort readdirSync cfg dir ∧
  protectedFiles r = protectedFilesOf readdirSync cfg dir ∧
  items r = buildPhotoStream naturalSort
              (getAllPhotoFiles (readdirSync (finalDir r))).
Proof.
  unfold main. destruct (renameStep _ _ _ _ _) as [dir'|]; [|done].
  by intros [= <-].
Qed.

Lemma renamePairsOf_sources dir name :
  name ∈ from <$> renamePairsOf naturalSort readdirSync cfg dir →
  name ∈ toRenumberOf naturalSort readdirSync dir.
Proof.
  intros (p & -> & Hp)%list_elem_of_fmap.
  pose proof (renamePairsOf_good readdirSync cfg naturalSort dir) as Hgood.
  rewrite Forall_forall in Hgood. by destruct (Hgood p Hp) as (? & _).
Qed.

Lemma renamePairsOf_targets dir name :
  name ∈ to <$> renamePairsOf naturalSort readdirSync cfg dir →
  dir !! name = None.
Proof.
  intros (p & -> & Hp)%list_elem_of_fmap.
  pose proof (renamePairsOf_good readdirSync cfg naturalSort dir) as Hgood.
  rewrite Forall_forall in Hgood. by destruct (Hgood p Hp) as (_ & _ & ?).
Qed.

End Run.

(** ** Rename pairs *)

(** C7 (as amended).  The final name of every rename pair is the
    formatted number, at or above the start number, followed by the
    extension of the candidate in lower case; when that extension is
    already in lower case it is the original extension itself. *)
Theorem renamePair_name
    (naturalSort : string → string → Z)
    (readdirSync : directory → list (string * node))
    (cfg : Config) (dir : directory) (p : RenamePair) :
  p ∈ renamePairsOf naturalSort readdirSync cfg dir →
  ∃ n, START_NUMBER cfg ≤ n ∧
       to p = fmtNum cfg n +:+ JS.toLowerCase (path.extname (from p)) ∧
       (JS.toLowerCase (path.extname (from p)) = path.extname (from p) →
        to p = fmtNum cfg n +:+ path.extname (from p)).
Proof.
  intros Hp.
  pose proof (renamePairsOf_good readdirSync cfg naturalSort dir) as Hgood.
  rewrite Forall_forall in Hgood.
  destruct (Hgood p Hp) as (_ & (n & Hn & _ & Hto) & _).
  exists n. split; [done |]. split; [done |]. intros <-. done.
Qed.

Lemma renamePair_name_witness :
  ∃ n, START_NUMBER scriptConfig ≤ n ∧
       "21.jpg" = fmtNum scriptConfig n
                  +:+ JS.toLowerCase (path.extname "beach.jpg") ∧
       (JS.toLowerCase (path.extname "beach.jpg") = path.extname "beach.jpg" →
        "21.jpg" = fmtNum scriptConfig n +:+ path.extname "beach.jpg").
Proof.
  apply (renamePair_name byteCompare map_to_list scriptConfig scenarioDir
           {| from := "beach.jpg"; to := "21.jpg" |}).
  vm_compute. apply list_elem_of_here.
Defined.

Lemma upperCase_mismatch s : "20.jpg" ≠ s +:+ ".JPG".
Proof.
  intros H.
  destruct s as [|a [|b [|c s]]]; [done | done | done |].
  apply (f_equal String.length) in H.
  rewrite !append_cons in H. simpl in H. rewrite length_append in H.
  simpl in H. lia.
Qed.

(** The extension of "IMG_A.JPG" is ".JPG", and the name it is given
    ends in ".jpg". *)
Lemma renamePair_name_counterexample :
  ¬ (∀ p, p ∈ renamePairsOf byteCompare map_to_list scriptConfig upperCaseDir →
          ∃ n, to p = fmtNum scriptConfig n +:+ path.extname (from p)).
Proof.
  intros H.
  destruct (H {| from := "IMG_A.JPG"; to := "20.jpg" |}) as [n Hn].
  { vm_compute. apply list_elem_of_here. }
  revert Hn. change (path.extname _) with ".JPG". simpl to.
  apply upperCase_mismatch.
Qed.

(** ** Files with a number *)

Section Numbered.

Variable naturalSort : string → string → Z.
Variable readdirSync : directory → list (string * node).
Variable cfg : Config.

Lemma numbered_not_source dir name :
  isAlreadyNumbered name = true →
  name ∉ toRenumberOf naturalSort readdirSync dir ∧
  name ∉ from <$> renamePairsOf naturalSort readdirSync cfg dir.
Proof.
  intros Hnum.
  assert (name ∉ toRenumberOf naturalSort readdirSync dir) as Hcand.
  { intros [_ Hn]%elem_of_toRenumberOf. congruence. }
  split; [done |]. by intros ?%renamePairsOf_sources.
Qed.

Lemma numbered_kept stamps dir name nd :
  dir !! name = Some nd → isAlreadyNumbered name = true →
  stateOf (renameStep naturalSort readdirSync cfg stamps dir) !! name
  = Some nd.
Proof.
  intros Hnd Hnum. rewrite renameStep_eq, <- Hnd.
  apply renameSafely_other.
  - by apply numbered_not_source.
  - intros Hto%renamePairsOf_targets. congruence.
  - intros st original ->. apply isAlreadyNumbered_true in Hnum as [n Hn].
    by rewrite toTempName_not_numbered in Hn.
Qed.

End Numbered.

(** C3.  A file whose name without the extension consists of digits,
    inside the protected range or outside of it, is no candidate and no
    source of a rename, and it is found under the same name in every
    state the renames reach, in particular after a completed run. *)
Theorem numbered_files_untouched
    (naturalSort : string → string → Z)
    (readdirSync : directory → list (string * node))
    (cfg : Config) (stamps : nat → Stamp) (dir : directory)
    (name : string) (nd : node) :
  dir !! name = Some nd →
  isProtectedFile cfg name = true ∨ isAlreadyNumbered name = true →
  name ∉ toRenumberOf naturalSort readdirSync dir ∧
  name ∉ from <$> renamePairsOf naturalSort readdirSync cfg dir ∧
  stateOf (renameStep naturalSort readdirSync cfg stamps dir) !! name
    = Some nd ∧
  (∀ r, main naturalSort readdirSync cfg stamps dir = Some r →
        finalDir r !! name = Some nd).
Proof.
  intros Hnd Hnum.
  assert (isAlreadyNumbered name = true) as Hnum'
    by (destruct Hnum; [by eapply isProtectedFile_numbered | done]).
  destruct (numbered_not_source naturalSort readdirSync cfg dir name Hnum')
    as [? ?].
  pose proof (numbered_kept naturalSort readdirSync cfg stamps dir name nd
                Hnd Hnum') as Hkept.
  repeat split; [done.. |].
  intros r (Hr & _)%main_Some. by rewrite Hr in Hkept.
Qed.

Lemma numbered_files_untouched_witness :
  "5.jpg" ∉ toRenumberOf byteCompare map_to_list scenarioDir ∧
  "5.jpg" ∉ from <$> renamePairsOf byteCompare map_to_list scriptConfig
                       scenarioDir ∧
  stateOf (renameStep byteCompare map_to_list scriptConfig sampleStamps
             scenarioDir) !! "5.jpg" = Some (File 1) ∧
  (∀ r, main byteCompare map_to_list scriptConfig sampleStamps scenarioDir
        = Some r → finalDir r !! "5.jpg" = Some (File 1)).
Proof.
  apply (numbered_files_untouched byteCompare map_to_list scriptConfig
           sampleStamps scenarioDir "5.jpg" (File 1)).
  - reflexivity.
  - left. reflexivity.
Defined.

(** ** The manifest lists the files it was given *)

Section ManifestNames.

Variable naturalSort : string → string → Z.

Lemma numbered_other_Permutation (files : list string) :
  ((λ x : string * N, x.1)
     <$> omap (λ f, (λ n, (f, n)) <$> parseLeadingNumber f) files)
  ++ filter (λ f, parseLeadingNumber f = None) files ≡ₚ files.
Proof.
  induction files as [|f files IH]; [done |].
  rewrite filter_cons. simpl. case_decide as Hf.
  - rewrite Hf. simpl. by rewrite <- Permutation_middle, IH.
  - destruct (parseLeadingNumber f) as [n|]; [|done].
    simpl. by rewrite IH.
Qed.

Lemma orderedNames_Permutation files :
  orderedNames naturalSort files ≡ₚ files.
Proof.
  unfold orderedNames. rewrite !sort_Permutation.
  apply numbered_other_Permutation.
Qed.

Lemma photos_path_inj a b : "./photos/" +:+ a = "./photos/" +:+ b → a = b.
Proof. rewrite !append_cons, !append_nil_l. by intros [= ->]. Qed.

Lemma elem_of_buildPhotoStream files name :
  {| src := "./photos/" +:+ name; label := LABEL |}
    ∈ buildPhotoStream naturalSort files ↔ name ∈ files.
Proof.
  unfold buildPhotoStream. rewrite list_elem_of_fmap.
  setoid_rewrite orderedNames_Permutation. split.
  - intros (f & Heq & Hf). apply (f_equal src) in Heq. simpl in Heq.
    by apply photos_path_inj in Heq as ->.
  - intros Hin. by exists name.
Qed.

End ManifestNames.

(** C10.  The scan keeps regular files only.  An entry that is a
    subdirectory, whatever its name, is in none of the lists the script
    works with, is no source of a rename, stays where it is in every
    state the renames reach, and has no entry in the manifest. *)
Theorem only_regular_files
    (naturalSort : string → string → Z)
    (readdirSync : directory → list (string * node))
    (cfg : Config) (stamps : nat → Stamp) (dir : directory)
    (listing : list (string * node)) (name : string) (e : bool) :
  listsDirectory readdirSync →
  dir !! name = Some (Directory e) →
  (∀ f, f ∈ getAllPhotoFiles listing →
        isPhoto f = true ∧ ∃ nd, (f, nd) ∈ listing ∧ fs.isFile nd = true) ∧
  name ∉ allFilesOf readdirSync dir ∧
  name ∉ protectedFilesOf readdirSync cfg dir ∧
  name ∉ alreadyNumberedOf readdirSync dir ∧
  name ∉ toRenumberOf naturalSort readdirSync dir ∧
  name ∉ from <$> renamePairsOf naturalSort readdirSync cfg dir ∧
  stateOf (renameStep naturalSort readdirSync cfg stamps dir) !! name
    = Some (Directory e) ∧
  (∀ r, main naturalSort readdirSync cfg stamps dir = Some r →
        finalDir r !! name = Some (Directory e) ∧
        {| src := "./photos/" +:+ name; label := LABEL |} ∉ items r).
Proof.
  intros Hlist Hdir.
  assert (∀ d, d !! name = Some (Directory e) →
               name ∉ allFilesOf readdirSync d) as Hscan.
  { intros d Hd (_ & c & Hc)%elem_of_allFilesOf; [congruence | done]. }
  pose proof (Hscan dir Hdir) as Hall.
  assert (name ∉ toRenumberOf naturalSort readdirSync dir) as Hcand.
  { by intros [? _]%elem_of_toRenumberOf. }
  assert (stateOf (renameStep naturalSort readdirSync cfg stamps dir) !! name
          = Some (Directory e)) as Hkept.
  { rewrite renameStep_eq. apply renameSafely_dirs; [|done].
    intros a e' Ha%renamePairsOf_sources.
    apply elem_of_toRenumberOf in Ha as [Ha _].
    apply elem_of_allFilesOf in Ha as (_ & c & Hc); [congruence | done]. }
  split; [intros f; by apply elem_of_getAllPhotoFiles |].
  split; [done |].
  split; [unfold protectedFilesOf; rewrite list_elem_of_filter; tauto |].
  split; [by intros [? _]%elem_of_alreadyNumberedOf |].
  split; [done |].
  split; [by intros ?%renamePairsOf_sources |].
  split; [done |].
  intros r (Hr & _ & _ & Hitems)%main_Some. rewrite Hr in Hkept.
  split; [done |]. rewrite Hitems, elem_of_buildPhotoStream.
  by apply Hscan.
Qed.

Lemma listsDirectory_map_to_list : listsDirectory map_to_list.
Proof. intros dir. reflexivity. Qed.

Lemma only_regular_files_witness :
  (∀ f, f ∈ getAllPhotoFiles (map_to_list shadowedDir) →
        isPhoto f = true ∧
        ∃ nd, (f, nd) ∈ map_to_list shadowedDir ∧ fs.isFile nd = true) ∧
  "20.jpg" ∉ allFilesOf map_to_list shadowedDir ∧
  "20.jpg" ∉ protectedFilesOf map_to_list scriptConfig shadowedDir ∧
  "20.jpg" ∉ alreadyNumberedOf map_to_list shadowedDir ∧
  "20.jpg" ∉ toRenumberOf byteCompare map_to_list shadowedDir ∧
  "20.jpg" ∉ from <$> renamePairsOf byteCompare map_to_list scriptConfig
                        shadowedDir ∧
  stateOf (renameStep byteCompare map_to_list scriptConfig sampleStamps
             shadowedDir) !! "20.jpg" = Some (Directory true) ∧
  (∀ r, main byteCompare map_to_list scriptConfig sampleStamps shadowedDir
        = Some r →
        finalDir r !! "20.jpg" = Some (Directory true) ∧
        {| src := "./photos/" +:+ "20.jpg"; label := LABEL |} ∉ items r).
Proof.
  apply (only_regular_files byteCompare map_to_list scriptConfig sampleStamps
           shadowedDir (map_to_list shadowedDir) "20.jpg" true).
  - exact listsDirectory_map_to_list.
  - reflexivity.
Defined.

(** ** The second run *)

Section SecondRun.

Variable naturalSort : string → string → Z.
Variable readdirSync : directory → list (string * node).
Variable cfg : Config.
Hypothesis Hlist : listsDirectory readdirSync.

Lemma from_pairOf assignment :
  from <$> (pairOf cfg <$> assignment) = assignment.*1.
Proof. rewrite <- list_fmap_compose. done. Qed.

(** Without collisions every candidate is renamed. *)
Lemma renamePairsOf_all dir :
  numberedAreFiles dir →
  from <$> renamePairsOf naturalSort readdirSync cfg dir
  = toRenumberOf naturalSort readdirSync dir.
Proof using Hlist.
  intros Hfiles. unfold renamePairsOf, allocation, allocate.
  destruct (foldl_allocStep_Allocates cfg dir
              (toRenumberOf naturalSort readdirSync dir)
              {| reservedNumbers :=
                   getReservedNumbers (alreadyNumberedOf readdirSync dir);
                 nextNum := START_NUMBER cfg; renamePairs := [] |})
    as (assignment & Halloc & -> & _).
  { by apply numberedAreFiles_collisionFree. }
  simpl. rewrite from_pairOf. by eapply Allocates_candidates.
Qed.

(** After a run without collisions every photo carries a number. *)
Lemma all_numbered_after stamps dir dir' name c :
  numberedAreFiles dir →
  renameStep naturalSort readdirSync cfg stamps dir = Done dir' →
  isPhoto name = true → dir' !! name = Some (File c) →
  isAlreadyNumbered name = true.
Proof using Hlist.
  intros Hfiles Hstep Hphoto Hc. rewrite renameStep_eq in Hstep.
  destruct (decide (name ∈ to <$> renamePairsOf naturalSort readdirSync
                                    cfg dir)) as [Hto|Hto].
  - apply list_elem_of_fmap in Hto as (p & -> & Hp).
    apply (renamePairsOf_facts readdirSync cfg Hlist) in Hp
      as (_ & (n & _ & _ & Hn & _) & _).
    apply isAlreadyNumbered_true. eauto.
  - destruct (renameSafely_back _ _ _ _ _ _ Hstep Hc Hto) as [Hold Hfrom].
    rewrite renamePairsOf_all in Hfrom by done.
    destruct (isAlreadyNumbered name) eqn:Hnum; [done |].
    exfalso. apply Hfrom. apply elem_of_toRenumberOf. split; [|done].
    apply elem_of_allFilesOf; eauto.
Qed.

End SecondRun.

Lemma renamePairsOf_no_candidates
    naturalSort readdirSync cfg (dir : directory) :
  toRenumberOf naturalSort readdirSync dir = [] →
  renamePairsOf naturalSort readdirSync cfg dir = [].
Proof.
  intros H. unfold renamePairsOf, allocation. by rewrite H.
Qed.

(** Idempotence where the defensive check stays silent.  When a run
    completes in a directory in which every numbered photo name is a
    regular file, every photo of the resulting directory carries a
    number; a second run on that directory, whatever the order of the
    listing, the collation and the clock, has no candidates, makes no
    rename pair, renames nothing and leaves the directory as it is. *)
Theorem second_run_idle
    (naturalSort naturalSort' : string → string → Z)
    (readdirSync readdirSync' : directory → list (string * node))
    (cfg : Config) (stamps stamps' : nat → Stamp)
    (dir : directory) (r : Report) :
  listsDirectory readdirSync → listsDirectory readdirSync' →
  numberedAreFiles dir →
  main naturalSort readdirSync cfg stamps dir = Some r →
  (∀ name, name ∈ allFilesOf readdirSync' (finalDir r) →
           isAlreadyNumbered name = true) ∧
  toRenumberOf naturalSort' readdirSync' (finalDir r) = [] ∧
  renamePairsOf naturalSort' readdirSync' cfg (finalDir r) = [] ∧
  renameStep naturalSort' readdirSync' cfg stamps' (finalDir r)
    = Done (finalDir r) ∧
  ∃ r', main naturalSort' readdirSync' cfg stamps' (finalDir r) = Some r' ∧
        renamed r' = [] ∧ finalDir r' = finalDir r.
Proof.
  intros Hlist Hlist' Hfiles (Hstep & _)%main_Some.
  assert (∀ name, name ∈ allFilesOf readdirSync' (finalDir r) →
                  isAlreadyNumbered name = true) as Hall.
  { intros name (Hphoto & c & Hc)%elem_of_allFilesOf; [|done].
    by eapply (all_numbered_after naturalSort readdirSync cfg Hlist). }
  assert (toRenumberOf naturalSort' readdirSync' (finalDir r) = []) as Hnone.
  { apply elem_of_nil_inv. intros name [Hin Hnum]%elem_of_toRenumberOf.
    apply Hall in Hin. congruence. }
  pose proof (renamePairsOf_no_candidates naturalSort' readdirSync' cfg
                (finalDir r) Hnone) as Hpairs.
  assert (renameStep naturalSort' readdirSync' cfg stamps' (finalDir r)
          = Done (finalDir r)) as Hstep'.
  { unfold renameStep. by rewrite Hpairs. }
  repeat split; [done.. |].
  unfold main. rewrite Hstep'. eexists. split; [done |]. simpl.
  by rewrite Hpairs.
Qed.

Lemma numberedAreFiles_scenarioDir : numberedAreFiles scenarioDir.
Proof.
  intros name nd Hnd _ _. apply elem_of_map_to_list in Hnd.
  vm_compute map_to_list in Hnd.
  rewrite !elem_of_cons, elem_of_nil in Hnd.
  destruct Hnd as [[= _ ->]|[[= _ ->]|[[= _ ->]|[[= _ ->]|[]]]]]; done.
Qed.

Lemma second_run_idle_witness :
  let r := reportOf (main byteCompare map_to_list scriptConfig sampleStamps
                       scenarioDir) in
  (∀ name, name ∈ allFilesOf map_to_list (finalDir r) →
           isAlreadyNumbered name = true) ∧
  toRenumberOf byteCompare map_to_list (finalDir r) = [] ∧
  renamePairsOf byteCompare map_to_list scriptConfig (finalDir r) = [] ∧
  renameStep byteCompare map_to_list scriptConfig sampleStamps (finalDir r)
    = Done (finalDir r) ∧
  ∃ r', main byteCompare map_to_list scriptConfig sampleStamps (finalDir r)
        = Some r' ∧ renamed r' = [] ∧ finalDir r' = finalDir r.
Proof.
  intros r.
  apply (second_run_idle byteCompare byteCompare map_to_list map_to_list
           scriptConfig sampleStamps sampleStamps scenarioDir r).
  - exact listsDirectory_map_to_list.
  - exact listsDirectory_map_to_list.
  - exact numberedAreFiles_scenarioDir.
  - vm_compute. reflexivity.
Defined.

(** ** The defensive check of the allocation loop *)

(** When the name built for a candidate exists already, the round ends
    without a pair for the candidate: the number is reserved and the
    cursor moves on, and the loop turns to the next candidate. *)
Lemma allocStep_collision cfg (dir : directory) st c :
  let n := whileReserved (reservedNumbers st) (nextNum st) in
  exists_ dir (fmtNum cfg n +:+ JS.toLowerCase (path.extname c)) = true →
  allocStep cfg dir st c =
    {| reservedNumbers := reservedNumbers st ∪ {[ n ]};
       nextNum := n + 1;
       renamePairs := renamePairs st |}.
Proof. intros n Hex. unfold allocStep. fold n. by rewrite Hex. Qed.

(** C1 (the script at the failing input).  In a directory that holds
    the photo "a.jpg" and a subdirectory named "20.jpg", the name built
    for the only candidate exists; the loop reserves 20, moves the
    cursor to 21 and ends: no rename pair is made, the run completes and
    "a.jpg" is still there under its name without a number. *)
Theorem collision_drops_candidate :
  toRenumberOf byteCompare map_to_list shadowedDir = ["a.jpg"] ∧
  getReservedNumbers (alreadyNumberedOf map_to_list shadowedDir) = ∅ ∧
  exists_ shadowedDir "20.jpg" = true ∧
  renamePairsOf byteCompare map_to_list scriptConfig shadowedDir = [] ∧
  nextNum (allocation byteCompare map_to_list scriptConfig shadowedDir) = 21 ∧
  reservedNumbers (allocation byteCompare map_to_list scriptConfig shadowedDir)
    = {[ 20 ]} ∧
  ∃ r, main byteCompare map_to_list scriptConfig sampleStamps shadowedDir
       = Some r ∧
       renamed r = [] ∧
       finalDir r = shadowedDir ∧
       finalDir r !! "a.jpg" = Some (File 1) ∧
       parseLeadingNumber "a.jpg" = None ∧
       items r = [ {| src := "./photos/a.jpg"; label := LABEL |} ].
Proof.
  split; [by vm_compute |]. split; [by vm_compute |].
  split; [by vm_compute |]. split; [by vm_compute |].
  split; [by vm_compute |]. split; [by vm_compute |].
  eexists. split; [by vm_compute |]. by vm_compute.
Qed.

(** ** The allocator of the design *)

Section Scenario.

Variable naturalSort : string → string → Z.
Variable readdirSync : directory → list (string * node).
Hypothesis Hlist : listsDirectory readdirSync.


Lemma getReservedNumbers_Permutation files files' :
  files ≡ₚ files' → getReservedNumbers files = getReservedNumbers files'.
Proof.
  intros H. apply getReservedNumbers_values. intros n. by rewrite H.
Qed.



End Scenario.




(** ** The order of the manifest *)







(** ** Temporary names *)

Lemma cut_at_underscore a1 a2 x y :
  noUnderscore a1 = true → noUnderscore a2 = true →
  a1 +:+ String "_" x = a2 +:+ String "_" y → a1 = a2 ∧ x = y.
Proof.
  revert a2. induction a1 as [|c1 a1 IH]; intros [|c2 a2] H1 H2;
    rewrite ?append_nil_l, ?append_cons; simpl in *.
  - by intros [= ->].
  - intros [= <- _]. done.
  - intros [= -> _]. done.
  - apply andb_true_iff in H1 as [_ H1]. apply andb_true_iff in H2 as [_ H2].
    intros [= -> Heq]. destruct (IH a2 H1 H2 Heq) as [-> ->]. done.
Qed.

Lemma allDigits_noUnderscore s :
  JS.allDigits s = true → noUnderscore s = true.
Proof.
  induction s as [|c s IH]; simpl; [done |].
  intros [Hc Hs]%andb_true_iff. rewrite IH by done.
  destruct c as [[] [] [] [] [] [] [] []]; done.
Qed.

Lemma allHex_noUnderscore s : allHex s = true → noUnderscore s = true.
Proof.
  induction s as [|c s IH]; simpl; [done |].
  intros [Hc Hs]%andb_true_iff. rewrite IH by done.
  destruct c as [[] [] [] [] [] [] [] []]; done.
Qed.

(** The original name can be read off a temporary name. *)
Lemma toTempName_inj st1 st2 o1 o2 :
  allHex (randomHex st1) = true → allHex (randomHex st2) = true →
  toTempName st1 o1 = toTempName st2 o2 → o1 = o2.
Proof.
  intros H1 H2. unfold toTempName.
  rewrite !append_cons, !append_nil_l. intros [= Heq].
  apply cut_at_underscore in Heq as [_ Heq];
    [| apply allDigits_noUnderscore, allDigits_String..].
  injection Heq as Heq.
  apply cut_at_underscore in Heq as [_ Heq];
    [| by apply allHex_noUnderscore..].
  by injection Heq.
Qed.

Lemma tmpPairsOf_elem stamps pairs q :
  q ∈ tmpPairsOf stamps pairs →
  ∃ k, tp_tmp q = toTempName (stamps k) (tp_from q) ∧
       tp_from q ∈ from <$> pairs.
Proof.
  unfold tmpPairsOf. intros (k & p & -> & Hp)%elem_of_lookup_imap. simpl.
  exists k. split; [done |].
  apply list_elem_of_fmap. exists p. split; [done |].
  by eapply list_elem_of_lookup_2.
Qed.

(** With different sources the temporary names of a batch differ. *)
Lemma tmpPairsOf_NoDup stamps pairs :
  hexStamps stamps → NoDup (from <$> pairs) →
  NoDup (tp_tmp <$> tmpPairsOf stamps pairs).
Proof.
  revert stamps. induction pairs as [|p pairs IH]; intros stamps Hhex Hnd.
  - constructor.
  - apply NoDup_cons in Hnd as [Hp Hnd].
    change (tmpPairsOf stamps (p :: pairs))
      with ({| tp_from := from p; tp_tmp := toTempName (stamps O) (from p);
               tp_to := to p |} :: tmpPairsOf (stamps ∘ S) pairs).
    rewrite fmap_cons. simpl. apply NoDup_cons. split.
    + intros (q & Hq & Hin)%list_elem_of_fmap.
      apply tmpPairsOf_elem in Hin as (k & Hk & Hfrom).
      rewrite Hk in Hq. apply toTempName_inj in Hq; [| apply Hhex..].
      apply Hp. by rewrite Hq.
    + apply IH; [|done]. intros k. apply Hhex.
Qed.

(** ** The two phases *)

Section TwoPhases.

Implicit Types (dir : directory) (l : list TmpPair).





End TwoPhases.



Lemma tempsApart_swap : tempsApart (tmpPairsOf sampleStamps swapPairs).
Proof.
  intros name Hname. rewrite tmpPairsOf_from, tmpPairsOf_to.
  change (tp_tmp <$> tmpPairsOf sampleStamps swapPairs)
    with [toTempName (sampleStamps 0) "a.jpg";
          toTempName (sampleStamps 1) "b.jpg"] in Hname.
  change (from <$> swapPairs) with ["a.jpg"; "b.jpg"].
  change (to <$> swapPairs) with ["b.jpg"; "a.jpg"].
  rewrite !elem_of_cons, elem_of_nil in Hname.
  destruct Hname as [->|[->|[]]];
    (split; rewrite !elem_of_cons, elem_of_nil;
     intros [H|[H|[]]]; vm_compute in H; done).
Qed.




(** * Further properties of the script *)

(** ** The [while] loop of the allocator *)

(** X1.  [while (reservedNumbers.has(nextNum)) nextNum++] ends, and it
    ends at the least number at or above the cursor that is not
    reserved: nothing free is skipped, and a free cursor stays where it
    is. *)
Theorem whileReserved_least (reserved : gset N) (cursor m : N) :
  cursor ≤ whileReserved reserved cursor ∧
  whileReserved reserved cursor ∉ reserved ∧
  (cursor ≤ m → m < whileReserved reserved cursor → m ∈ reserved) ∧
  (cursor ≤ m → m ∉ reserved → whileReserved reserved cursor ≤ m) ∧
  (cursor ∉ reserved → whileReserved reserved cursor = cursor).
Proof.
  pose proof (whileReserved_spec reserved cursor) as (Hle & Hfree & Hbelow).
  split; [done |]. split; [done |]. split; [by apply Hbelow |].
  split.
  - intros Hm Hout.
    destruct (N.le_gt_cases (whileReserved reserved cursor) m) as [?|Hlt];
      [done |].
    destruct Hout. by apply Hbelow.
  - intros Hout.
    destruct (N.eq_dec (whileReserved reserved cursor) cursor) as [?|Hne];
      [done |].
    destruct Hout. apply Hbelow; lia.
Qed.

Lemma whileReserved_least_witness :
  whileReserved {[ 5; 20; 21 ]} 20 = 22 ∧
  (20 ≤ 21 → 21 < whileReserved {[ 5; 20; 21 ]} 20 → 21 ∈ ({[ 5; 20; 21 ]} : gset N)).
Proof.
  split; [by vm_compute |].
  apply (whileReserved_least {[ 5; 20; 21 ]} 20 21).
Defined.

(** ** The allocation loop, collisions included *)

Lemma foldl_allocStep_numbers cfg (dir : directory) cands st :
  ∃ assignment,
    renamePairs (foldl (allocStep cfg dir) st cands)
      = renamePairs st ++ (pairOf cfg <$> assignment) ∧
    assignment.*1 `sublist_of` cands ∧
    StronglySorted N.lt assignment.*2 ∧
    Forall (λ n, nextNum st ≤ n ∧ n ∉ reservedNumbers st ∧
                 n < nextNum (foldl (allocStep cfg dir) st cands))
           assignment.*2 ∧
    Forall (λ a, dir !! to (pairOf cfg a) = None) assignment ∧
    nextNum st + N.of_nat (length cands)
      ≤ nextNum (foldl (allocStep cfg dir) st cands) ∧
    reservedNumbers st ∪ list_to_set assignment.*2
      ⊆ reservedNumbers (foldl (allocStep cfg dir) st cands).
Proof.
  revert st. induction cands as [|c cands IH]; intros st.
  - exists []. simpl. rewrite app_nil_r.
    repeat split; try constructor; [lia | set_solver].
  - simpl foldl.
    pose proof (whileReserved_spec (reservedNumbers st) (nextNum st))
      as (Hle & Hfree & _).
    set (n := whileReserved (reservedNumbers st) (nextNum st)) in *.
    destruct (IH (allocStep cfg dir st c))
      as (rest & Hpairs & Hsub & Hsorted & Hnums & Hdir & Hnext & Hres).
    assert (nextNum (allocStep cfg dir st c) = n + 1) as Hn1
      by (unfold allocStep; fold n; by destruct (exists_ dir _)).
    assert (reservedNumbers (allocStep cfg dir st c)
            = reservedNumbers st ∪ {[ n ]}) as Hr1
      by (unfold allocStep; fold n; by destruct (exists_ dir _)).
    rewrite Hn1 in Hnums, Hnext. rewrite Hr1 in Hnums, Hres.
    assert (Forall (λ m, nextNum st ≤ m ∧ m ∉ reservedNumbers st ∧
                         m < nextNum (foldl (allocStep cfg dir)
                                        (allocStep cfg dir st c) cands))
                   rest.*2) as Hnums'.
    { eapply Forall_impl; [exact Hnums |]. simpl. intros m (? & ? & ?).
      split; [lia |]. split; [set_solver | done]. }
    assert (n < nextNum (foldl (allocStep cfg dir)
                           (allocStep cfg dir st c) cands)) as Hn by lia.
    destruct (exists_ dir (fmtNum cfg n
                +:+ JS.toLowerCase (path.extname c))) eqn:Hex.
    + exists rest.
      assert (renamePairs (allocStep cfg dir st c) = renamePairs st) as Hp1
        by (unfold allocStep; fold n; by rewrite Hex).
      rewrite Hp1 in Hpairs.
      split; [done |]. split; [by apply sublist_cons |].
      split; [done |]. split; [done |]. split; [done |].
      split; [rewrite length_cons; lia | set_solver].
    + exists ((c, n) :: rest).
      assert (renamePairs (allocStep cfg dir st c)
              = renamePairs st ++ [pairOf cfg (c, n)]) as Hp1
        by (unfold allocStep; fold n; by rewrite Hex).
      rewrite Hp1, <- app_assoc in Hpairs.
      split; [done |]. split; [by apply sublist_skip |].
      split.
      { simpl. constructor; [done |].
        eapply Forall_impl; [exact Hnums |]. simpl. intros m (? & _). lia. }
      split; [simpl; constructor; [done | done] |].
      split; [constructor; [by apply exists_false | done] |].
      split; [rewrite length_cons; lia |].
      simpl. set_solver.
Qed.

(** X2.  Whatever the directory holds, the numbers the loop hands out
    grow strictly from pair to pair, lie at or above the floor and below
    the final cursor, and avoid every number that was reserved at the
    start; the renamed candidates keep the order of the candidate list;
    no final name exists in the directory; and every candidate, renamed
    or not, uses up at least one cursor value. *)
Theorem allocate_numbers
    (cfg : Config) (dir : directory) (reserved : gset N) (floor : N)
    (cands : list string) :
  ∃ assignment,
    renamePairs (allocate cfg dir reserved floor cands)
      = pairOf cfg <$> assignment ∧
    assignment.*1 `sublist_of` cands ∧
    StronglySorted N.lt assignment.*2 ∧
    Forall (λ n, floor ≤ n ∧ n ∉ reserved ∧
                 n < nextNum (allocate cfg dir reserved floor cands))
           assignment.*2 ∧
    Forall (λ p, dir !! to p = None)
           (renamePairs (allocate cfg dir reserved floor cands)) ∧
    floor + N.of_nat (length cands)
      ≤ nextNum (allocate cfg dir reserved floor cands) ∧
    reserved ∪ list_to_set assignment.*2
      ⊆ reservedNumbers (allocate cfg dir reserved floor cands).
Proof.
  unfold allocate.
  destruct (foldl_allocStep_numbers cfg dir cands
              {| reservedNumbers := reserved; nextNum := floor;
                 renamePairs := [] |})
    as (assignment & Hpairs & Hsub & Hsorted & Hnums & Hdir & Hnext & Hres).
  simpl in *. exists assignment. rewrite Hpairs.
  repeat split; try done. by apply Forall_fmap.
Qed.

(** ** Names and numbers *)

Lemma length_repeatChar c k : String.length (JS.repeatChar c k) = k.
Proof. induction k as [|k IH]; simpl; [done | by rewrite IH]. Qed.

(** X3.  A formatted number is never cut: it has [PAD] characters or,
    when the number has more digits than that, the digits of the number;
    it consists of digits and reads back as the number, so different
    numbers have different names under the same [PAD]. *)
Theorem fmtNum_width (cfg : Config) (n m : N) :
  String.length (fmtNum cfg n)
    = Nat.max (PAD cfg) (String.length (JS.String_ n)) ∧
  fmtNum cfg n
    = JS.repeatChar "0" (PAD cfg - String.length (JS.String_ n))
      +:+ JS.String_ n ∧
  JS.testDigits (fmtNum cfg n) = true ∧
  JS.Number (fmtNum cfg n) = n ∧
  (fmtNum cfg n = fmtNum cfg m → n = m).
Proof.
  assert (fmtNum cfg n
          = JS.repeatChar "0" (PAD cfg - String.length (JS.String_ n))
            +:+ JS.String_ n) as Heq.
  { unfold fmtNum, JS.padStart. by destruct (PAD cfg). }
  split.
  { rewrite Heq, length_append, length_repeatChar. lia. }
  split; [done |]. split; [apply testDigits_fmtNum |].
  split; [apply Number_fmtNum |].
  intros H. by rewrite <- (Number_fmtNum cfg n), H, Number_fmtNum.
Qed.





(** X5.  The name built from a number and a recognised extension reads
    back as that number, whatever the padding: it is a photo name, it
    counts as already numbered, its extension and base are the ones it
    was built from, and it is protected exactly when the number lies in
    the protected range. *)
Theorem target_round_trip (cfg : Config) (n : N) (ext : string) :
  ext ∈ exts →
  parseLeadingNumber (fmtNum cfg n +:+ ext) = Some n ∧
  isPhoto (fmtNum cfg n +:+ ext) = true ∧
  isAlreadyNumbered (fmtNum cfg n +:+ ext) = true ∧
  path.extname (fmtNum cfg n +:+ ext) = ext ∧
  path.basename (fmtNum cfg n +:+ ext) ext = fmtNum cfg n ∧
  (isProtectedFile cfg (fmtNum cfg n +:+ ext) = true ↔
     PROTECT_MIN cfg ≤ n ∧ n ≤ PROTECT_MAX cfg).
Proof.
  intros Hext.
  pose proof (parseLeadingNumber_target cfg n ext Hext) as Hparse.
  split; [done |]. split; [by apply isPhoto_target |].
  split; [apply isAlreadyNumbered_true; eauto |].
  destruct (exts_shape ext Hext) as (e' & -> & He & _).
  split; [apply extname_digits_ext; [apply testDigits_fmtNum | done] |].
  split.
  { apply basename_append; [|done].
    pose proof (testDigits_fmtNum cfg n) as Hd. by destruct (fmtNum cfg n). }
  rewrite isProtectedFile_spec, Hparse. split.
  - by intros (m & [= <-] & ?).
  - intros ?. eauto.
Qed.

Lemma target_round_trip_witness :
  parseLeadingNumber (fmtNum scriptConfig 1234 +:+ ".webp") = Some 1234 ∧
  isPhoto (fmtNum scriptConfig 1234 +:+ ".webp") = true ∧
  isAlreadyNumbered (fmtNum scriptConfig 1234 +:+ ".webp") = true ∧
  path.extname (fmtNum scriptConfig 1234 +:+ ".webp") = ".webp" ∧
  path.basename (fmtNum scriptConfig 1234 +:+ ".webp") ".webp"
    = fmtNum scriptConfig 1234 ∧
  (isProtectedFile scriptConfig (fmtNum scriptConfig 1234 +:+ ".webp") = true ↔
     PROTECT_MIN scriptConfig ≤ 1234 ∧ 1234 ≤ PROTECT_MAX scriptConfig).
Proof.
  apply (target_round_trip scriptConfig 1234 ".webp").
  unfold exts. rewrite !elem_of_cons. tauto.
Defined.

(** ** Reserved numbers *)

Lemma getReservedNumbers_app files1 files2 :
  getReservedNumbers (files1 ++ files2)
  = getReservedNumbers files1 ∪ getReservedNumbers files2.
Proof.
  apply set_eq. intros n.
  rewrite elem_of_union, !elem_of_getReservedNumbers.
  setoid_rewrite elem_of_app. naive_solver.
Qed.

(** X6.  [getReservedNumbers] collects the numbers of the names that
    carry one and nothing else: names without a number contribute
    nothing, several names with one number contribute it once, and the
    set of a concatenation is the union of the sets. *)
Theorem getReservedNumbers_collects (files files' : list string) (n : N) :
  (n ∈ getReservedNumbers files ↔
     ∃ f, f ∈ files ∧ parseLeadingNumber f = Some n) ∧
  getReservedNumbers (files ++ files')
    = getReservedNumbers files ∪ getReservedNumbers files' ∧
  (getReservedNumbers files = ∅ ↔
     ∀ f, f ∈ files → parseLeadingNumber f = None) ∧
  (size (getReservedNumbers files) ≤ length files)%nat.
Proof.
  split; [apply elem_of_getReservedNumbers |].
  split; [apply getReservedNumbers_app |].
  split.
  - split.
    + intros Hempty f Hf.
      destruct (parseLeadingNumber f) as [m|] eqn:Hm; [|done].
      assert (m ∈ getReservedNumbers files) as Hin
        by (apply elem_of_getReservedNumbers; eauto).
      rewrite Hempty in Hin. by apply not_elem_of_empty in Hin.
    + intros Hnone. apply set_eq. intros m.
      rewrite elem_of_getReservedNumbers. split.
      * intros (f & Hf & Hm). rewrite (Hnone f Hf) in Hm. done.
      * by intros ?%not_elem_of_empty.
  - induction files as [|f files IH]; [done |].
    change (f :: files) with ([f] ++ files).
    rewrite getReservedNumbers_app, length_app, size_union_alt.
    assert (size (getReservedNumbers files ∖ getReservedNumbers [f])
            ≤ size (getReservedNumbers files))%nat
      by (apply subseteq_size; set_solver).
    assert (size (getReservedNumbers [f]) ≤ 1)%nat; [|simpl; lia].
    unfold getReservedNumbers. simpl.
    destruct (parseLeadingNumber f).
    + by rewrite union_empty_l_L, size_singleton.
    + rewrite size_empty. lia.
Qed.

(** ** Temporary names *)

Lemma splitLastDot_prefix p o b e :
  path.splitLastDot o = Some (b, e) →
  path.splitLastDot (p +:+ o) = Some (p +:+ b, e).
Proof.
  intros Ho. induction p as [|c p IH]; [done |].
  rewrite !append_cons. simpl. by rewrite IH.
Qed.

Lemma String_inj n m : JS.String_ n = JS.String_ m → n = m.
Proof. intros H. by rewrite <- (Number_String n), H, Number_String. Qed.

Lemma extname_nonempty_split name :
  path.extname name ≠ "" →
  ∃ b, path.splitLastDot name = Some (b, path.extname name).
Proof.
  unfold path.extname.
  destruct (path.splitLastDot name) as [[b e]|]; [|done].
  destruct (String.eqb b ""); [done |].
  destruct (String.eqb name ".."); [done |]. eauto.
Qed.

Lemma append_assoc s1 s2 s3 : (s1 +:+ s2) +:+ s3 = s1 +:+ (s2 +:+ s3).
Proof.
  induction s1 as [|c s1 IH]; [done |]. by rewrite !append_cons, IH.
Qed.

Lemma toTempName_prefix st original :
  ∃ r, toTempName st original = String "_" r +:+ original.
Proof.
  exists ("_tmp__" +:+ JS.String_ (dateNow st) +:+ "__" +:+ randomHex st
          +:+ "__").
  unfold toTempName. rewrite <- append_cons. by rewrite !append_assoc.
Qed.

Lemma extname_toTempName st original :
  path.extname original ≠ "" →
  path.extname (toTempName st original) = path.extname original.
Proof.
  intros (b & Hs)%extname_nonempty_split.
  destruct (toTempName_prefix st original) as [r ->].
  unfold path.extname at 1.
  rewrite (splitLastDot_prefix _ _ _ _ Hs), !append_cons. done.
Qed.

(** X7.  A temporary name tells its parts: two temporary names are equal
    only when they stem from the same original name, the same clock
    value and the same random digits.  A temporary name never carries a
    number, and the temporary name of a photo is a photo name with the
    extension of the original, so a temporary file a broken run leaves
    behind is a candidate of the next run. *)
Theorem toTempName_tells (st1 st2 : Stamp) (o1 o2 : string) :
  allHex (randomHex st1) = true → allHex (randomHex st2) = true →
  (toTempName st1 o1 = toTempName st2 o2 →
     o1 = o2 ∧ dateNow st1 = dateNow st2 ∧ randomHex st1 = randomHex st2) ∧
  parseLeadingNumber (toTempName st1 o1) = None ∧
  isAlreadyNumbered (toTempName st1 o1) = false ∧
  (isPhoto o1 = true →
     isPhoto (toTempName st1 o1) = true ∧
     path.extname (toTempName st1 o1) = path.extname o1).
Proof.
  intros H1 H2. split.
  - unfold toTempName. rewrite !append_cons, !append_nil_l. intros [= Heq].
    apply cut_at_underscore in Heq as [Hnow Heq];
      [| apply allDigits_noUnderscore, allDigits_String..].
    injection Heq as Heq.
    apply cut_at_underscore in Heq as [Hrnd Heq];
      [| by apply allHex_noUnderscore..].
    injection Heq as Heq. by apply String_inj in Hnow.
  - pose proof (toTempName_not_numbered st1 o1) as Hnone.
    split; [done |]. split; [by apply isAlreadyNumbered_false |].
    intros Hphoto.
    assert (path.extname o1 ≠ "") as Hext.
    { intros Hext. apply isPhoto_ext in Hphoto. rewrite Hext in Hphoto.
      unfold exts in Hphoto. simpl in Hphoto.
      rewrite !elem_of_cons, elem_of_nil in Hphoto.
      naive_solver. }
    rewrite (extname_toTempName st1 o1 Hext). split; [|done].
    unfold isPhoto. rewrite (extname_toTempName st1 o1 Hext). exact Hphoto.
Qed.

Lemma toTempName_tells_witness :
  (toTempName (sampleStamps 0) "a.jpg" = toTempName (sampleStamps 1) "a.jpg" →
     "a.jpg" = "a.jpg" ∧
     dateNow (sampleStamps 0) = dateNow (sampleStamps 1) ∧
     randomHex (sampleStamps 0) = randomHex (sampleStamps 1)) ∧
  parseLeadingNumber (toTempName (sampleStamps 0) "a.jpg") = None ∧
  isAlreadyNumbered (toTempName (sampleStamps 0) "a.jpg") = false ∧
  (isPhoto "a.jpg" = true →
     isPhoto (toTempName (sampleStamps 0) "a.jpg") = true ∧
     path.extname (toTempName (sampleStamps 0) "a.jpg")
       = path.extname "a.jpg").
Proof.
  apply (toTempName_tells (sampleStamps 0) (sampleStamps 1) "a.jpg" "a.jpg").
  - reflexivity.
  - reflexivity.
Defined.

(** ** Recognising photos *)

Lemma lowerChar_dot c :
  Ascii.eqb (JS.lowerChar c) "." = Ascii.eqb c ".".
Proof. destruct c as [[] [] [] [] [] [] [] []]; reflexivity. Qed.

Lemma lowerChar_idem c : JS.lowerChar (JS.lowerChar c) = JS.lowerChar c.
Proof. destruct c as [[] [] [] [] [] [] [] []]; reflexivity. Qed.

Lemma toLowerCase_idem s : JS.toLowerCase (JS.toLowerCase s) = JS.toLowerCase s.
Proof.
  induction s as [|c s IH]; simpl; [done |]. by rewrite lowerChar_idem, IH.
Qed.

Lemma toLowerCase_append s1 s2 :
  JS.toLowerCase (s1 +:+ s2) = JS.toLowerCase s1 +:+ JS.toLowerCase s2.
Proof.
  induction s1 as [|c s1 IH]; [done |].
  rewrite append_cons. simpl. by rewrite IH, append_cons.
Qed.

Lemma splitLastDot_toLowerCase s :
  path.splitLastDot (JS.toLowerCase s)
  = (λ be, (JS.toLowerCase be.1, JS.toLowerCase be.2))
      <$> path.splitLastDot s.
Proof.
  induction s as [|c s IH]; simpl; [done |]. rewrite IH.
  destruct (path.splitLastDot s) as [[b e]|]; simpl; [done |].
  rewrite lowerChar_dot. by destruct (Ascii.eqb c ".").
Qed.

Lemma toLowerCase_eqb_nil s :
  String.eqb (JS.toLowerCase s) "" = String.eqb s "".
Proof. by destruct s. Qed.

Lemma toLowerCase_eqb_dots s :
  String.eqb (JS.toLowerCase s) ".." = String.eqb s "..".
Proof.
  destruct s as [|c1 [|c2 [|c3 s]]]; simpl; try done.
  - by rewrite lowerChar_dot; destruct (Ascii.eqb c1 ".").
  - rewrite !lowerChar_dot.
    by destruct (Ascii.eqb c1 "."), (Ascii.eqb c2 ".").
  - rewrite !lowerChar_dot.
    by destruct (Ascii.eqb c1 "."), (Ascii.eqb c2 ".").
Qed.

Lemma extname_toLowerCase name :
  path.extname (JS.toLowerCase name) = JS.toLowerCase (path.extname name).
Proof.
  unfold path.extname. rewrite splitLastDot_toLowerCase.
  destruct (path.splitLastDot name) as [[b e]|]; simpl; [|done].
  rewrite toLowerCase_eqb_nil, toLowerCase_eqb_dots.
  destruct (String.eqb b ""); [done |]. by destruct (String.eqb name "..").
Qed.

(** X8.  Whether a name is a photo name does not depend on the case of
    its letters: a name and its lower-case form are recognised alike,
    and so are all names whose extensions agree up to case.  A name
    without an extension (no dot, or only a leading dot) is never a
    photo name. *)
Theorem isPhoto_ignores_case (name name' : string) :
  isPhoto (JS.toLowerCase name) = isPhoto name ∧
  (JS.toLowerCase (path.extname name) = JS.toLowerCase (path.extname name') →
     isPhoto name = isPhoto name') ∧
  (path.extname name = "" → isPhoto name = false).
Proof.
  split.
  - unfold isPhoto. by rewrite extname_toLowerCase, toLowerCase_idem.
  - split.
    + intros H. unfold isPhoto. by rewrite H.
    + intros H. unfold isPhoto. rewrite H. by vm_compute.
Qed.

(** ** The scan and the three lists *)

Lemma NoDup_fst_filter {A B} (P : A * B → Prop) `{∀ x, Decision (P x)}
    (l : list (A * B)) :
  NoDup l.*1 → NoDup (filter P l).*1.
Proof.
  induction l as [|x l IH]; [done |].
  rewrite fmap_cons, NoDup_cons, filter_cons. intros [Hx Hl].
  destruct (decide (P x)); [|by apply IH].
  rewrite fmap_cons, NoDup_cons. split; [|by apply IH].
  intros (y & Hy & Hin)%list_elem_of_fmap.
  apply list_elem_of_filter in Hin as [_ Hin].
  apply Hx. apply list_elem_of_fmap. eauto.
Qed.

Lemma NoDup_getAllPhotoFiles (listing : list (string * node)) :
  NoDup listing.*1 → NoDup (getAllPhotoFiles listing).
Proof.
  intros H. unfold getAllPhotoFiles.
  apply NoDup_filter. by apply (NoDup_fst_filter _ listing).
Qed.

Lemma NoDup_allFilesOf readdirSync (dir : directory) :
  listsDirectory readdirSync → NoDup (allFilesOf readdirSync dir).
Proof.
  intros Hlist. apply NoDup_getAllPhotoFiles.
  rewrite (Hlist dir). apply NoDup_fst_map_to_list.
Qed.

Lemma NoDup_toRenumberOf naturalSort readdirSync (dir : directory) :
  listsDirectory readdirSync →
  NoDup (toRenumberOf naturalSort readdirSync dir).
Proof.
  intros Hlist. unfold toRenumberOf. rewrite sort_Permutation.
  by apply NoDup_filter, NoDup_allFilesOf.
Qed.

(** X9.  The scan lists every photo once, and the script splits that
    list in two: the names that already carry a number and the
    candidates, which are the same candidates in natural order.  Every
    photo is in exactly one of the two lists, and the protected files
    are a part of the numbered ones. *)
Theorem scan_classification
    (naturalSort : string → string → Z)
    (readdirSync : directory → list (string * node))
    (cfg : Config) (dir : directory) :
  listsDirectory readdirSync →
  NoDup (allFilesOf readdirSync dir) ∧
  alreadyNumberedOf readdirSync dir
    ++ toRenumberOf naturalSort readdirSync dir
    ≡ₚ allFilesOf readdirSync dir ∧
  (∀ name, name ∈ alreadyNumberedOf readdirSync dir →
           name ∉ toRenumberOf naturalSort readdirSync dir) ∧
  NoDup (toRenumberOf naturalSort readdirSync dir) ∧
  protectedFilesOf readdirSync cfg dir
    `sublist_of` alreadyNumberedOf readdirSync dir ∧
  length (allFilesOf readdirSync dir)
    = (length (alreadyNumberedOf readdirSync dir)
       + length (toRenumberOf naturalSort readdirSync dir))%nat.
Proof.
  intros Hlist.
  assert (alreadyNumberedOf readdirSync dir
            ++ toRenumberOf naturalSort readdirSync dir
          ≡ₚ allFilesOf readdirSync dir) as Hperm.
  { unfold alreadyNumberedOf, toRenumberOf. rewrite sort_Permutation.
    rewrite <- (filter_app_complement (λ f, isAlreadyNumbered f)
                  (allFilesOf readdirSync dir)) at 3.
    f_equiv. apply reflexive_eq, list_filter_iff. intros f.
    destruct (isAlreadyNumbered f); simpl; tauto. }
  split; [by apply NoDup_allFilesOf |]. split; [done |].
  split.
  { intros name [_ Hnum]%elem_of_alreadyNumberedOf
                 [_ Hnot]%elem_of_toRenumberOf. congruence. }
  split; [by apply NoDup_toRenumberOf |].
  split.
  - unfold protectedFilesOf, alreadyNumberedOf.
    assert (filter (λ f, isProtectedFile cfg f) (allFilesOf readdirSync dir)
            = filter (λ f, isProtectedFile cfg f)
                (filter (λ f, isAlreadyNumbered f)
                   (allFilesOf readdirSync dir))) as ->.
    { rewrite list_filter_filter. apply list_filter_iff. intros f.
      split; [|tauto]. intros Hp. split; [done |].
      apply Is_true_true in Hp. apply Is_true_true.
      by eapply isProtectedFile_numbered. }
    apply sublist_filter.
  - by rewrite <- Hperm, length_app.
Qed.

Lemma scan_classification_witness :
  NoDup (allFilesOf map_to_list scenarioDir) ∧
  alreadyNumberedOf map_to_list scenarioDir
    ++ toRenumberOf byteCompare map_to_list scenarioDir
    ≡ₚ allFilesOf map_to_list scenarioDir ∧
  (∀ name, name ∈ alreadyNumberedOf map_to_list scenarioDir →
           name ∉ toRenumberOf byteCompare map_to_list scenarioDir) ∧
  NoDup (toRenumberOf byteCompare map_to_list scenarioDir) ∧
  protectedFilesOf map_to_list scriptConfig scenarioDir
    `sublist_of` alreadyNumberedOf map_to_list scenarioDir ∧
  length (allFilesOf map_to_list scenarioDir)
    = (length (alreadyNumberedOf map_to_list scenarioDir)
       + length (toRenumberOf byteCompare map_to_list scenarioDir))%nat.
Proof.
  apply (scan_classification byteCompare map_to_list scriptConfig
           scenarioDir).
  exact listsDirectory_map_to_list.
Defined.

(** ** What a batch of renames does *)

(** A sequence of renames whose sources are different regular files and
    whose targets are different free names, no target being a source,
    goes through and moves every source to its target. *)
Lemma renameEach_moves (moves : list (string * string)) (dir : directory) :
  NoDup moves.*1 → NoDup moves.*2 →
  (∀ a, a ∈ moves.*1 → a ∉ moves.*2) →
  (∀ a, a ∈ moves.*1 → ∃ c, dir !! a = Some (File c)) →
  (∀ b, b ∈ moves.*2 → dir !! b = None) →
  ∃ dir', fs.renameEach dir moves = Done dir' ∧
    (∀ a b, (a, b) ∈ moves → dir' !! b = dir !! a) ∧
    (∀ a, a ∈ moves.*1 → dir' !! a = None) ∧
    (∀ name, name ∉ moves.*1 → name ∉ moves.*2 →
             dir' !! name = dir !! name) ∧
    (map_to_list dir').*2 ≡ₚ (map_to_list dir).*2.
Proof.
  revert dir. induction moves as [|[a b] moves IH];
    intros dir Hsrc Htgt Hdisj Hfiles Hfree.
  - exists dir. split; [done |]. split; [|split; [|done]].
    + intros a b Hin. by apply elem_of_nil in Hin.
    + intros a Hin. by apply elem_of_nil in Hin.
  - rewrite !fmap_cons in *. simpl in *.
    apply NoDup_cons in Hsrc as [Ha Hsrc].
    apply NoDup_cons in Htgt as [Hb Htgt].
    destruct (Hfiles a) as [c Hc]; [by apply elem_of_cons; left |].
    assert (dir !! b = None) as Hbfree
      by (apply Hfree; by apply elem_of_cons; left).
    assert (a ≠ b) as Hab by congruence.
    assert (fs.renameSync dir a b
            = Some (<[b := File c]> (delete a dir))) as Hr.
    { unfold fs.renameSync. rewrite Hc, Hbfree.
      by rewrite decide_False. }
    rewrite Hr.
    assert (a ∉ moves.*2) as Ha2.
    { intros Hin. apply (Hdisj a); [by apply elem_of_cons; left |].
      by apply elem_of_cons; right. }
    assert (b ∉ moves.*1) as Hb1.
    { intros Hin. apply (Hdisj b); [by apply elem_of_cons; right |].
      by apply elem_of_cons; left. }
    destruct (IH (<[b := File c]> (delete a dir)))
      as (dir' & Hdone & Hmoved & Hgone & Hother & Hsame);
      [done | done | | | |].
    + intros a' Ha' Hin. apply (Hdisj a'); by apply elem_of_cons; right.
    + intros a' Ha'.
      rewrite lookup_insert_ne, lookup_delete_ne by congruence.
      apply Hfiles. by apply elem_of_cons; right.
    + intros b' Hb'.
      rewrite lookup_insert_ne, lookup_delete_ne by congruence.
      apply Hfree. by apply elem_of_cons; right.
    + exists dir'. split; [done |]. split; [|split; [|split]].
      * intros a' b' [[= -> ->]|Hin]%elem_of_cons.
        -- rewrite Hother by done. by rewrite lookup_insert_eq.
        -- rewrite (Hmoved a' b' Hin).
           assert (a' ∈ moves.*1)
             by (apply list_elem_of_fmap; by exists (a', b')).
           by rewrite lookup_insert_ne, lookup_delete_ne by congruence.
      * intros a' [->|Hin]%elem_of_cons; [|by apply Hgone].
        rewrite Hother by done.
        by rewrite lookup_insert_ne, lookup_delete_eq.
      * intros name [Hna Hn1]%not_elem_of_cons [Hnb Hn2]%not_elem_of_cons.
        rewrite Hother by done.
        by rewrite lookup_insert_ne, lookup_delete_ne.
      * rewrite Hsame, map_to_list_insert
          by (by rewrite lookup_delete_ne).
        rewrite <- (map_to_list_delete dir a (File c) Hc).
        by rewrite !fmap_cons.
Qed.

Lemma elem_of_phase1 l a b :
  (a, b) ∈ phase1 l ↔ ∃ q, q ∈ l ∧ a = tp_from q ∧ b = tp_tmp q.
Proof.
  unfold phase1. rewrite list_elem_of_fmap. naive_solver.
Qed.

Lemma elem_of_phase2 l a b :
  (a, b) ∈ phase2 l ↔ ∃ q, q ∈ l ∧ a = tp_tmp q ∧ b = tp_to q.
Proof.
  unfold phase2. rewrite list_elem_of_fmap. naive_solver.
Qed.

Lemma tmpPairsOf_pair stamps pairs p :
  p ∈ pairs →
  ∃ q, q ∈ tmpPairsOf stamps pairs ∧ tp_from q = from p ∧ tp_to q = to p.
Proof.
  intros (k & Hk)%list_elem_of_lookup_1. unfold tmpPairsOf.
  eexists. split.
  - apply elem_of_lookup_imap. eauto.
  - done.
Qed.

(** Both phases of a well-formed batch go through, and move every
    source to its target. *)
Lemma renameSafely_completes
    (stamps : nat → Stamp) (dir : directory) (pairs : list RenamePair) :
  NoDup (from <$> pairs) → NoDup (to <$> pairs) →
  hexStamps stamps →
  tempsApart (tmpPairsOf stamps pairs) →
  freshTemps dir (tmpPairsOf stamps pairs) →
  sourcesAreFiles dir pairs →
  targetsFree dir pairs →
  ∃ dir', renameSafely stamps dir pairs = Done dir' ∧
    (∀ p, p ∈ pairs → dir' !! to p = dir !! from p) ∧
    (∀ name, name ∈ from <$> pairs → name ∉ to <$> pairs →
             dir' !! name = None) ∧
    (∀ name, name ∉ from <$> pairs → name ∉ to <$> pairs →
             dir' !! name = dir !! name) ∧
    (map_to_list dir').*2 ≡ₚ (map_to_list dir).*2.
Proof.
  intros Hfrom Hto Hhex Hapart Hfresh Hfiles Hfree.
  set (l := tmpPairsOf stamps pairs) in *.
  pose proof (tmpPairsOf_NoDup stamps pairs Hhex Hfrom) as Htmp.
  fold l in Htmp.
  assert (tp_from <$> l = from <$> pairs) as Hlf by apply tmpPairsOf_from.
  assert (tp_to <$> l = to <$> pairs) as Hlt by apply tmpPairsOf_to.
  destruct (renameEach_moves (phase1 l) dir)
    as (dir1 & H1 & Hmoved1 & Hgone1 & Hother1 & Hsame1).
  { by rewrite phase1_fst, Hlf. }
  { by rewrite phase1_snd. }
  { intros a. rewrite phase1_fst, phase1_snd. intros Ha Hin.
    by destruct (Hapart a Hin). }
  { intros a. rewrite phase1_fst, Hlf.
    intros (p & -> & Hp)%list_elem_of_fmap. by apply Hfiles. }
  { intros b. rewrite phase1_snd. apply Hfresh. }
  rewrite phase1_fst in Hgone1. rewrite phase1_fst, phase1_snd in Hother1.
  destruct (renameEach_moves (phase2 l) dir1)
    as (dir' & H2 & Hmoved2 & Hgone2 & Hother2 & Hsame2).
  { by rewrite phase2_fst. }
  { by rewrite phase2_snd, Hlt. }
  { intros a. rewrite phase2_fst, phase2_snd. intros Ha.
    by destruct (Hapart a Ha). }
  { intros a. rewrite phase2_fst.
    intros (q & -> & Hq)%list_elem_of_fmap.
    rewrite (Hmoved1 (tp_from q) (tp_tmp q))
      by (apply elem_of_phase1; eauto).
    assert (tp_from q ∈ from <$> pairs) as Hin
      by (rewrite <- Hlf; by apply list_elem_of_fmap_2).
    apply list_elem_of_fmap in Hin as (p & -> & Hp). by apply Hfiles. }
  { intros b. rewrite phase2_snd, Hlt.
    intros (p & -> & Hp)%list_elem_of_fmap.
    destruct (decide (to p ∈ tp_from <$> l)) as [Hin|Hout];
      [by apply Hgone1 |].
    rewrite Hother1; [| done |].
    - destruct (Hfree p Hp) as [?|Hin]; [done |]. by rewrite Hlf in Hout.
    - intros Hin. destruct (Hapart (to p) Hin) as [_ Hnot].
      apply Hnot. rewrite Hlt. by apply list_elem_of_fmap_2. }
  rewrite phase2_fst in Hgone2. rewrite phase2_fst, phase2_snd in Hother2.
  exists dir'. split; [unfold renameSafely; fold l; by rewrite H1 |].
  split; [|split; [|split]]; [| | | by rewrite Hsame2].
  - intros p Hp.
    destruct (tmpPairsOf_pair stamps pairs p Hp) as (q & Hq & <- & <-).
    rewrite (Hmoved2 (tp_tmp q) (tp_to q)) by (apply elem_of_phase2; eauto).
    apply Hmoved1. apply elem_of_phase1. eauto.
  - intros name Hin Hout. rewrite <- Hlf in Hin. rewrite <- Hlt in Hout.
    rewrite Hother2; [by apply Hgone1 | | done].
    intros Htmp'. by destruct (Hapart name Htmp').
  - intros name Hnf Hnt. rewrite <- Hlf in Hnf. rewrite <- Hlt in Hnt.
    destruct (decide (name ∈ tp_tmp <$> l)) as [Hin|Hout].
    + rewrite (Hgone2 name Hin). symmetry. by apply Hfresh.
    + rewrite Hother2 by done. by apply Hother1.
Qed.

(** X10.  A batch with different sources that are regular files, with
    different targets each of which is free or the name of a source of
    the batch, and with temporary names that are no names of the
    directory or of the batch, goes through both phases.  Afterwards
    every target holds the file its source held, also in a cycle of
    names; a source name that is no target is gone; every other name
    holds what it held; no temporary name is left behind; and the
    directory holds the same entries as before, each as often as
    before. *)
Theorem renameSafely_moves
    (stamps : nat → Stamp) (dir : directory) (pairs : list RenamePair) :
  NoDup (from <$> pairs) → NoDup (to <$> pairs) →
  hexStamps stamps →
  tempsApart (tmpPairsOf stamps pairs) →
  freshTemps dir (tmpPairsOf stamps pairs) →
  sourcesAreFiles dir pairs →
  targetsFree dir pairs →
  ∃ dir', renameSafely stamps dir pairs = Done dir' ∧
    (∀ p, p ∈ pairs → dir' !! to p = dir !! from p) ∧
    (∀ name, name ∈ from <$> pairs → name ∉ to <$> pairs →
             dir' !! name = None) ∧
    (∀ name, name ∉ from <$> pairs → name ∉ to <$> pairs →
             dir' !! name = dir !! name) ∧
    (∀ name, name ∈ tp_tmp <$> tmpPairsOf stamps pairs →
             dir' !! name = None) ∧
    (map_to_list dir').*2 ≡ₚ (map_to_list dir).*2 ∧
    size dir' = size dir.
Proof.
  intros Hfrom Hto Hhex Hapart Hfresh Hfiles Hfree.
  destruct (renameSafely_completes stamps dir pairs)
    as (dir' & Hdone & Hmoved & Hgone & Hother & Hsame); [done.. |].
  exists dir'. repeat split; [done.. | |done |].
  - intros name Hname. destruct (Hapart name Hname) as [Hnf Hnt].
    rewrite tmpPairsOf_from in Hnf. rewrite tmpPairsOf_to in Hnt.
    rewrite Hother by done. by apply Hfresh.
  - rewrite <- !length_map_to_list.
    rewrite <- (length_fmap snd (map_to_list dir')).
    rewrite <- (length_fmap snd (map_to_list dir)).
    by rewrite Hsame.
Qed.

Lemma freshTemps_swap : freshTemps swapDir (tmpPairsOf sampleStamps swapPairs).
Proof.
  intros name Hname.
  change (tp_tmp <$> tmpPairsOf sampleStamps swapPairs)
    with [toTempName (sampleStamps 0) "a.jpg";
          toTempName (sampleStamps 1) "b.jpg"] in Hname.
  rewrite !elem_of_cons, elem_of_nil in Hname.
  destruct Hname as [->|[->|[]]]; by vm_compute.
Qed.

Lemma NoDup_two (a b : string) : a ≠ b → NoDup [a; b].
Proof.
  intros Hab. apply NoDup_cons. split; [|apply NoDup_singleton].
  rewrite elem_of_cons, elem_of_nil. by intros [?|[]].
Qed.

Lemma renameSafely_moves_witness :
  ∃ dir', renameSafely sampleStamps swapDir swapPairs = Done dir' ∧
    (∀ p, p ∈ swapPairs → dir' !! to p = swapDir !! from p) ∧
    (∀ name, name ∈ from <$> swapPairs → name ∉ to <$> swapPairs →
             dir' !! name = None) ∧
    (∀ name, name ∉ from <$> swapPairs → name ∉ to <$> swapPairs →
             dir' !! name = swapDir !! name) ∧
    (∀ name, name ∈ tp_tmp <$> tmpPairsOf sampleStamps swapPairs →
             dir' !! name = None) ∧
    (map_to_list dir').*2 ≡ₚ (map_to_list swapDir).*2 ∧
    size dir' = size swapDir.
Proof.
  apply (renameSafely_moves sampleStamps swapDir swapPairs).
  - by apply NoDup_two.
  - by apply NoDup_two.
  - intros k. reflexivity.
  - exact tempsApart_swap.
  - exact freshTemps_swap.
  - intros p Hp. unfold swapPairs in Hp.
    rewrite !elem_of_cons, elem_of_nil in Hp.
    destruct Hp as [->|[->|[]]]; eexists; reflexivity.
  - intros p Hp. right. unfold swapPairs in Hp.
    rewrite !elem_of_cons, elem_of_nil in Hp.
    destruct Hp as [->|[->|[]]]; unfold swapPairs; simpl;
      rewrite !elem_of_cons; tauto.
Defined.

(** A sequence of renames with a source that is missing, and that no
    rename of the sequence can create, throws. *)
Lemma renameEach_missing (moves : list (string * string)) (dir : directory)
    (a : string) :
  a ∈ moves.*1 → a ∉ moves.*2 → dir !! a = None →
  ∃ dir', fs.renameEach dir moves = Thrown dir'.
Proof.
  revert dir. induction moves as [|[a0 b0] moves IH]; intros dir Hin Hout Ha.
  - by apply elem_of_nil in Hin.
  - rewrite fmap_cons in Hin, Hout. simpl in *.
    apply not_elem_of_cons in Hout as [Hab Hout].
    destruct (fs.renameSync dir a0 b0) as [dir1|] eqn:Hr; [|eauto].
    apply elem_of_cons in Hin as [->|Hin].
    + apply renameSync_Some in Hr as (x & Hx & _). congruence.
    + apply (IH dir1); [done | done |].
      destruct (decide (a = a0)) as [->|Hne].
      * apply renameSync_Some in Hr as (x & Hx & _). congruence.
      * rewrite (renameSync_other _ _ _ _ _ Hr) by done. done.
Qed.

(** X11.  A batch with a source that does not exist throws in its first
    phase, before any temporary name is renamed to a target: every
    name that is neither a source nor a temporary name of the batch
    holds what it held, so no target has been written and the files
    that were moved lie under temporary names. *)
Theorem renameSafely_missing_source
    (stamps : nat → Stamp) (dir : directory) (pairs : list RenamePair)
    (p : RenamePair) :
  tempsApart (tmpPairsOf stamps pairs) →
  p ∈ pairs → dir !! from p = None →
  ∃ dir', renameSafely stamps dir pairs = Thrown dir' ∧
    fs.renameEach dir (phase1 (tmpPairsOf stamps pairs)) = Thrown dir' ∧
    (∀ name, name ∉ from <$> pairs →
             name ∉ tp_tmp <$> tmpPairsOf stamps pairs →
             dir' !! name = dir !! name).
Proof.
  intros Hapart Hp Hmissing.
  destruct (renameEach_missing (phase1 (tmpPairsOf stamps pairs)) dir (from p))
    as [dir' H1].
  { rewrite phase1_fst, tmpPairsOf_from. by apply list_elem_of_fmap_2. }
  { rewrite phase1_snd. intros Hin. destruct (Hapart _ Hin) as [Hnot _].
    apply Hnot. rewrite tmpPairsOf_from. by apply list_elem_of_fmap_2. }
  { done. }
  exists dir'. split; [unfold renameSafely; by rewrite H1 |].
  split; [done |].
  intros name Hnf Hnt.
  pose proof (renameEach_other dir (phase1 (tmpPairsOf stamps pairs)) name)
    as Hother.
  rewrite phase1_fst, phase1_snd, tmpPairsOf_from, H1 in Hother.
  by apply Hother.
Qed.

Lemma renameSafely_missing_source_witness :
  ∃ dir', renameSafely sampleStamps swapDir
            [ {| from := "a.jpg"; to := "1.jpg" |};
              {| from := "c.jpg"; to := "2.jpg" |} ] = Thrown dir' ∧
    fs.renameEach swapDir
      (phase1 (tmpPairsOf sampleStamps
                 [ {| from := "a.jpg"; to := "1.jpg" |};
                   {| from := "c.jpg"; to := "2.jpg" |} ])) = Thrown dir' ∧
    (∀ name,
       name ∉ from <$> [ {| from := "a.jpg"; to := "1.jpg" |};
                         {| from := "c.jpg"; to := "2.jpg" |} ] →
       name ∉ tp_tmp <$> tmpPairsOf sampleStamps
                 [ {| from := "a.jpg"; to := "1.jpg" |};
                   {| from := "c.jpg"; to := "2.jpg" |} ] →
       dir' !! name = swapDir !! name).
Proof.
  apply (renameSafely_missing_source sampleStamps swapDir
           [ {| from := "a.jpg"; to := "1.jpg" |};
             {| from := "c.jpg"; to := "2.jpg" |} ]
           {| from := "c.jpg"; to := "2.jpg" |}).
  - intros name Hname. rewrite tmpPairsOf_from, tmpPairsOf_to.
    change (tp_tmp <$> tmpPairsOf sampleStamps _)
      with [toTempName (sampleStamps 0) "a.jpg";
            toTempName (sampleStamps 1) "c.jpg"] in Hname.
    rewrite !elem_of_cons, elem_of_nil in Hname.
    destruct Hname as [->|[->|[]]];
      (split; simpl; rewrite !elem_of_cons, elem_of_nil;
       intros [H|[H|[]]]; vm_compute in H; done).
  - apply elem_of_cons. right. apply list_elem_of_here.
  - reflexivity.
Defined.

(** ** The whole run *)

Lemma StronglySorted_lt_NoDup (l : list N) : StronglySorted N.lt l → NoDup l.
Proof.
  induction 1 as [|n l _ IH Hall]; [constructor |].
  apply NoDup_cons. split; [|done].
  intros Hin. rewrite Forall_forall in Hall. specialize (Hall n Hin). lia.
Qed.

(** The numbers of the final names, read back. *)
Lemma parse_targets cfg (assignment : list (string * N)) :
  Forall (λ a, JS.toLowerCase (path.extname a.1) ∈ exts) assignment →
  parseLeadingNumber <$> (to <$> (pairOf cfg <$> assignment))
  = Some <$> assignment.*2.
Proof.
  induction 1 as [|a assignment Hext _ IH]; [done |].
  rewrite !fmap_cons, IH. f_equal. simpl.
  by apply parseLeadingNumber_target.
Qed.

(** The batch the script hands to the renamer has no source twice and
    no target twice. *)
Lemma renamePairsOf_NoDup naturalSort readdirSync cfg (dir : directory) :
  listsDirectory readdirSync →
  NoDup (from <$> renamePairsOf naturalSort readdirSync cfg dir) ∧
  NoDup (to <$> renamePairsOf naturalSort readdirSync cfg dir).
Proof.
  intros Hlist. unfold renamePairsOf, allocation, allocate.
  destruct (foldl_allocStep_numbers cfg dir
              (toRenumberOf naturalSort readdirSync dir)
              {| reservedNumbers :=
                   getReservedNumbers (alreadyNumberedOf readdirSync dir);
                 nextNum := START_NUMBER cfg; renamePairs := [] |})
    as (assignment & -> & Hsub & Hsorted & _).
  simpl. split.
  - rewrite from_pairOf.
    eapply sublist_NoDup; [by apply NoDup_toRenumberOf | done].
  - apply (NoDup_fmap_1 parseLeadingNumber). rewrite parse_targets.
    + apply (NoDup_fmap_2 Some). by apply StronglySorted_lt_NoDup.
    + apply Forall_forall. intros a Ha.
      apply (toRenumberOf_ext readdirSync Hlist naturalSort dir).
      eapply elem_of_sublist; [|done]. by apply list_elem_of_fmap_2.
Qed.

(** Temporary names that are free in the directory are no names of the
    batch either: a source exists, and a target has a number. *)
Lemma renamePairsOf_tempsApart naturalSort readdirSync cfg stamps
    (dir : directory) :
  listsDirectory readdirSync →
  freshTemps dir
    (tmpPairsOf stamps (renamePairsOf naturalSort readdirSync cfg dir)) →
  tempsApart
    (tmpPairsOf stamps (renamePairsOf naturalSort readdirSync cfg dir)).
Proof.
  intros Hlist Hfresh name Hname.
  rewrite tmpPairsOf_from, tmpPairsOf_to. split.
  - intros (p & -> & Hp)%list_elem_of_fmap.
    apply (renamePairsOf_facts readdirSync cfg Hlist) in Hp
      as ((_ & _ & c & Hc) & _).
    rewrite (Hfresh _ Hname) in Hc. done.
  - intros (p & -> & Hp)%list_elem_of_fmap.
    apply (renamePairsOf_facts readdirSync cfg Hlist) in Hp
      as (_ & (n & _ & _ & Hn & _) & _).
    apply tmpPairsOf_tmp in Hname as (st & original & Heq).
    rewrite Heq, toTempName_not_numbered in Hn. done.
Qed.

(** No source of the batch is a target of it. *)
Lemma renamePairsOf_source_no_target naturalSort readdirSync cfg
    (dir : directory) name :
  listsDirectory readdirSync →
  name ∈ from <$> renamePairsOf naturalSort readdirSync cfg dir →
  name ∉ to <$> renamePairsOf naturalSort readdirSync cfg dir.
Proof.
  intros Hlist (p & -> & Hp)%list_elem_of_fmap Hto.
  apply (renamePairsOf_targets naturalSort readdirSync cfg) in Hto.
  apply (renamePairsOf_facts readdirSync cfg Hlist) in Hp
    as ((_ & _ & c & Hc) & _).
  congruence.
Qed.

(** The rename step of the script goes through when the temporary names
    are free. *)
Lemma renameStep_moves naturalSort readdirSync cfg stamps (dir : directory) :
  listsDirectory readdirSync →
  hexStamps stamps →
  freshTemps dir
    (tmpPairsOf stamps (renamePairsOf naturalSort readdirSync cfg dir)) →
  ∃ dir',
    renameStep naturalSort readdirSync cfg stamps dir = Done dir' ∧
    (∀ p, p ∈ renamePairsOf naturalSort readdirSync cfg dir →
          dir' !! to p = dir !! from p) ∧
    (∀ name, name ∈ from <$> renamePairsOf naturalSort readdirSync cfg dir →
             dir' !! name = None) ∧
    (∀ name, name ∉ from <$> renamePairsOf naturalSort readdirSync cfg dir →
             name ∉ to <$> renamePairsOf naturalSort readdirSync cfg dir →
             dir' !! name = dir !! name) ∧
    (map_to_list dir').*2 ≡ₚ (map_to_list dir).*2.
Proof.
  intros Hlist Hhex Hfresh. rewrite renameStep_eq.
  destruct (renamePairsOf_NoDup naturalSort readdirSync cfg dir Hlist)
    as [Hfrom Hto].
  destruct (renameSafely_completes stamps dir
              (renamePairsOf naturalSort readdirSync cfg dir))
    as (dir' & Hdone & Hmoved & Hgone & Hother & Hsame);
    [done | done | done | by apply renamePairsOf_tempsApart | done | | |].
  - intros p Hp.
    by apply (renamePairsOf_facts readdirSync cfg Hlist) in Hp
      as ((_ & _ & Hc) & _).
  - intros p Hp. left.
    apply (renamePairsOf_targets naturalSort readdirSync cfg).
    by apply list_elem_of_fmap_2.
  - exists dir'. repeat split; [done | done | | done | done].
    intros name Hname. apply Hgone; [done |].
    by apply renamePairsOf_source_no_target.
Qed.

Lemma freshTemps_forallb (dir : directory) (l : list TmpPair) :
  forallb (λ q, bool_decide (dir !! tp_tmp q = None)) l = true →
  freshTemps dir l.
Proof.
  rewrite forallb_forall. intros Hall name (q & -> & Hq)%list_elem_of_fmap.
  apply list_elem_of_In in Hq. apply Hall in Hq.
  by apply bool_decide_eq_true in Hq.
Qed.



(** The photos of the directory after the rename step: those that were
    not renamed, and the targets. *)
Lemma allFilesOf_after naturalSort readdirSync cfg stamps
    (dir dir' : directory) :
  listsDirectory readdirSync →
  hexStamps stamps →
  freshTemps dir
    (tmpPairsOf stamps (renamePairsOf naturalSort readdirSync cfg dir)) →
  renameStep naturalSort readdirSync cfg stamps dir = Done dir' →
  allFilesOf readdirSync dir'
  ≡ₚ filter (λ f, f ∉ from <$> renamePairsOf naturalSort readdirSync cfg dir)
            (allFilesOf readdirSync dir)
     ++ (to <$> renamePairsOf naturalSort readdirSync cfg dir).
Proof.
  intros Hlist Hhex Hfresh Hstep.
  destruct (renameStep_moves naturalSort readdirSync cfg stamps dir)
    as (dir'' & Hstep' & Hmoved & Hgone & Hother & _); [done.. |].
  rewrite Hstep in Hstep'. injection Hstep' as <-.
  destruct (renamePairsOf_NoDup naturalSort readdirSync cfg dir Hlist)
    as [Hfrom Hto].
  set (pairs := renamePairsOf naturalSort readdirSync cfg dir) in *.
  apply NoDup_Permutation.
  - by apply NoDup_allFilesOf.
  - apply NoDup_app. split; [by apply NoDup_filter, NoDup_allFilesOf |].
    split; [|done].
    intros name [_ Hin]%list_elem_of_filter Hto'.
    apply (renamePairsOf_targets naturalSort readdirSync cfg) in Hto'.
    apply elem_of_allFilesOf in Hin as (_ & c & Hc); [|done]. congruence.
  - intros name. rewrite elem_of_app, list_elem_of_filter.
    rewrite !(elem_of_allFilesOf readdirSync Hlist).
    destruct (decide (name ∈ to <$> pairs)) as [Hto'|Hto'].
    + split; [tauto |]. intros _.
      apply list_elem_of_fmap in Hto' as (p & -> & Hp).
      apply (renamePairsOf_facts readdirSync cfg Hlist) in Hp as Hfacts.
      destruct Hfacts as ((_ & _ & c & Hc) & (n & _ & _ & _ & Hphoto) & _).
      split; [done |]. exists c. by rewrite (Hmoved p Hp).
    + destruct (decide (name ∈ from <$> pairs)) as [Hfr|Hfr].
      * rewrite (Hgone name Hfr). split; [by intros (_ & c & ?) | tauto].
      * rewrite (Hother name Hfr Hto'). tauto.
Qed.

(** X13.  The manifest of a completed run lists the regular photo files
    of the final directory, each of them once and nothing else, every
    entry with the path under the photos folder and the same label. *)
Theorem manifest_complete
    (naturalSort : string → string → Z)
    (readdirSync : directory → list (string * node))
    (cfg : Config) (stamps : nat → Stamp) (dir : directory) (r : Report) :
  listsDirectory readdirSync →
  main naturalSort readdirSync cfg stamps dir = Some r →
  src <$> items r
    ≡ₚ (λ name, "./photos/" +:+ name) <$> allFilesOf readdirSync (finalDir r) ∧
  NoDup (src <$> items r) ∧
  Forall (λ e, label e = LABEL) (items r) ∧
  length (items r) = length (allFilesOf readdirSync (finalDir r)) ∧
  (∀ name, "./photos/" +:+ name ∈ src <$> items r ↔
           isPhoto name = true ∧ ∃ c, finalDir r !! name = Some (File c)).
Proof.
  intros Hlist (_ & _ & _ & Hitems)%main_Some.
  fold (allFilesOf readdirSync (finalDir r)) in Hitems.
  assert (src <$> items r
          ≡ₚ (λ name, "./photos/" +:+ name)
               <$> allFilesOf readdirSync (finalDir r)) as Hperm.
  { rewrite Hitems. unfold buildPhotoStream.
    rewrite <- list_fmap_compose.
    by rewrite orderedNames_Permutation. }
  split; [done |]. split; [|split; [|split]].
  - rewrite Hperm. apply NoDup_fmap_2_strong; [|by apply NoDup_allFilesOf].
    intros a b _ _. apply photos_path_inj.
  - rewrite Hitems. unfold buildPhotoStream.
    apply Forall_fmap, Forall_forall. by intros name _.
  - rewrite <- (length_fmap src), Hperm. by rewrite length_fmap.
  - intros name. rewrite Hperm, list_elem_of_fmap.
    rewrite <- (elem_of_allFilesOf readdirSync Hlist). split.
    + by intros (f & ->%photos_path_inj & Hf).
    + intros Hin. by exists name.
Qed.

Lemma manifest_complete_witness :
  src <$> items (reportOf (main byteCompare map_to_list scriptConfig
                             sampleStamps scenarioDir))
    ≡ₚ (λ name, "./photos/" +:+ name)
         <$> allFilesOf map_to_list
               (finalDir (reportOf (main byteCompare map_to_list scriptConfig
                                      sampleStamps scenarioDir))) ∧
  NoDup (src <$> items (reportOf (main byteCompare map_to_list scriptConfig
                                    sampleStamps scenarioDir))) ∧
  Forall (λ e, label e = LABEL)
         (items (reportOf (main byteCompare map_to_list scriptConfig
                             sampleStamps scenarioDir))) ∧
  length (items (reportOf (main byteCompare map_to_list scriptConfig
                             sampleStamps scenarioDir)))
  = length (allFilesOf map_to_list
              (finalDir (reportOf (main byteCompare map_to_list scriptConfig
                                     sampleStamps scenarioDir)))) ∧
  (∀ name,
     "./photos/" +:+ name
       ∈ src <$> items (reportOf (main byteCompare map_to_list scriptConfig
                                    sampleStamps scenarioDir)) ↔
     isPhoto name = true ∧
     ∃ c, finalDir (reportOf (main byteCompare map_to_list scriptConfig
                                sampleStamps scenarioDir)) !! name
          = Some (File c)).
Proof.
  apply (manifest_complete byteCompare map_to_list scriptConfig sampleStamps
           scenarioDir).
  - exact listsDirectory_map_to_list.
  - vm_compute. reflexivity.
Defined.

(** X14.  A completed run loses no photo and makes none up.  The
    numbered photos of the final directory are the ones that were
    numbered before and the targets of the run; the photos without a
    number are the candidates that were passed over; the manifest has
    one entry for every photo the directory held at the start; and the
    numbers a following run has to keep clear of are the ones of
    before and the ones just handed out. *)
Theorem run_keeps_photos
    (naturalSort : string → string → Z)
    (readdirSync : directory → list (string * node))
    (cfg : Config) (stamps : nat → Stamp) (dir : directory) :
  listsDirectory readdirSync →
  hexStamps stamps →
  freshTemps dir
    (tmpPairsOf stamps (renamePairsOf naturalSort readdirSync cfg dir)) →
  ∃ r, main naturalSort readdirSync cfg stamps dir = Some r ∧
    alreadyNumberedOf readdirSync (finalDir r)
      ≡ₚ alreadyNumberedOf readdirSync dir ++ (to <$> renamed r) ∧
    toRenumberOf naturalSort readdirSync (finalDir r)
      ≡ₚ filter (λ f, f ∉ from <$> renamed r)
                (toRenumberOf naturalSort readdirSync dir) ∧
    length (items r) = length (allFilesOf readdirSync dir) ∧
    getReservedNumbers (alreadyNumberedOf readdirSync (finalDir r))
    = getReservedNumbers (alreadyNumberedOf readdirSync dir)
      ∪ getReservedNumbers (to <$> renamed r).
Proof.
  intros Hlist Hhex Hfresh.
  destruct (renameStep_moves naturalSort readdirSync cfg stamps dir)
    as (dir' & Hstep & _); [done.. |].
  pose proof (allFilesOf_after naturalSort readdirSync cfg stamps dir dir'
                Hlist Hhex Hfresh Hstep) as Hafter.
  destruct (renamePairsOf_NoDup naturalSort readdirSync cfg dir Hlist)
    as [Hfrom Hto].
  unfold main. rewrite Hstep. eexists. split; [done |]. simpl.
  fold (allFilesOf readdirSync dir').
  set (pairs := renamePairsOf naturalSort readdirSync cfg dir) in *.
  assert (∀ name, name ∈ to <$> pairs → isAlreadyNumbered name = true)
    as Hnum.
  { intros name (p & -> & Hp)%list_elem_of_fmap.
    apply (renamePairsOf_facts readdirSync cfg Hlist) in Hp
      as (_ & (n & _ & _ & Hn & _) & _).
    apply isAlreadyNumbered_true. eauto. }
  assert (∀ name, name ∈ from <$> pairs → isAlreadyNumbered name = false)
    as Hcand.
  { intros name (p & -> & Hp)%list_elem_of_fmap.
    apply (renamePairsOf_facts readdirSync cfg Hlist) in Hp
      as ((_ & Hn & _) & _).
    by apply isAlreadyNumbered_false. }
  assert (∀ name, name ∈ allFilesOf readdirSync dir' ↔
            (name ∉ from <$> pairs ∧ name ∈ allFilesOf readdirSync dir)
            ∨ name ∈ to <$> pairs) as Hin'.
  { intros name. by rewrite Hafter, elem_of_app, list_elem_of_filter. }
  assert (∀ name, name ∈ to <$> pairs → name ∉ allFilesOf readdirSync dir)
    as Hfree.
  { intros name Hin Hall.
    apply (renamePairsOf_targets naturalSort readdirSync cfg) in Hin.
    apply elem_of_allFilesOf in Hall as (_ & c & Hc); [|done]. congruence. }
  assert (∀ name, name ∈ from <$> pairs → name ∈ allFilesOf readdirSync dir)
    as Hsrc.
  { intros name Hin%renamePairsOf_sources.
    by apply elem_of_toRenumberOf in Hin as [? _]. }
  assert (alreadyNumberedOf readdirSync dir'
          ≡ₚ alreadyNumberedOf readdirSync dir ++ (to <$> pairs)) as Hnumbered.
  { unfold alreadyNumberedOf. apply NoDup_Permutation.
    - by apply NoDup_filter, NoDup_allFilesOf.
    - apply NoDup_app. split; [by apply NoDup_filter, NoDup_allFilesOf |].
      split; [|done].
      intros name [_ Hin]%list_elem_of_filter Hto'. by apply (Hfree name).
    - intros name.
      rewrite elem_of_app, !list_elem_of_filter, Hin', Is_true_true. split.
      + tauto.
      + intros [[Hn Hall]|Hto']; [|by split; [apply Hnum | right]].
        split; [done |]. left. split; [|done].
        intros Hfr%Hcand. congruence. }
  split; [done |]. split; [|split].
  - apply NoDup_Permutation.
    + by apply NoDup_toRenumberOf.
    + by apply NoDup_filter, NoDup_toRenumberOf.
    + intros name. rewrite list_elem_of_filter, !elem_of_toRenumberOf, Hin'.
      split; [|tauto].
      intros [[[Hfr Hall]|Hto'%Hnum] Hn]; [tauto | congruence].
  - unfold buildPhotoStream.
    rewrite length_fmap, orderedNames_Permutation, Hafter.
    rewrite length_app, length_fmap, <- (length_fmap from pairs).
    rewrite <- length_app. apply Permutation_length.
    apply NoDup_Permutation.
    + apply NoDup_app. split; [by apply NoDup_filter, NoDup_allFilesOf |].
      split; [|done]. by intros name [Hn _]%list_elem_of_filter.
    + by apply NoDup_allFilesOf.
    + intros name. rewrite elem_of_app, list_elem_of_filter.
      destruct (decide (name ∈ from <$> pairs)) as [Hfr|Hfr]; [|tauto].
      split; [intros _; by apply Hsrc | tauto].
  - rewrite (getReservedNumbers_Permutation _ _ Hnumbered).
    apply getReservedNumbers_app.
Qed.

Lemma run_keeps_photos_witness :
  ∃ r, main byteCompare map_to_list scriptConfig sampleStamps scenarioDir
       = Some r ∧
    alreadyNumberedOf map_to_list (finalDir r)
      ≡ₚ alreadyNumberedOf map_to_list scenarioDir ++ (to <$> renamed r) ∧
    toRenumberOf byteCompare map_to_list (finalDir r)
      ≡ₚ filter (λ f, f ∉ from <$> renamed r)
                (toRenumberOf byteCompare map_to_list scenarioDir) ∧
    length (items r) = length (allFilesOf map_to_list scenarioDir) ∧
    getReservedNumbers (alreadyNumberedOf map_to_list (finalDir r))
    = getReservedNumbers (alreadyNumberedOf map_to_list scenarioDir)
      ∪ getReservedNumbers (to <$> renamed r).
Proof.
  apply (run_keeps_photos byteCompare map_to_list scriptConfig sampleStamps
           scenarioDir).
  - exact listsDirectory_map_to_list.
  - intros k. reflexivity.
  - apply freshTemps_forallb. vm_compute. reflexivity.
Defined.

(** X15.  With the first number to hand out above the protected range,
    as the script has it, no rename touches that range: the new name of
    a renamed photo is not protected, nor was its old name, and the new
    name differs in its number from every protected file. *)
Theorem targets_outside_protected_range
    (naturalSort : string → string → Z)
    (readdirSync : directory → list (string * node))
    (cfg : Config) (dir : directory) (p : RenamePair) :
  listsDirectory readdirSync →
  PROTECT_MAX cfg < START_NUMBER cfg →
  p ∈ renamePairsOf naturalSort readdirSync cfg dir →
  isProtectedFile cfg (to p) = false ∧
  isProtectedFile cfg (from p) = false ∧
  ∀ f, f ∈ protectedFilesOf readdirSync cfg dir →
       f ≠ from p ∧ f ≠ to p ∧
       parseLeadingNumber f ≠ parseLeadingNumber (to p).
Proof.
  intros Hlist Hrange Hp.
  apply (renamePairsOf_facts readdirSync cfg Hlist) in Hp
    as ((_ & Hnone & _) & (n & Hn & _ & Hparse & _) & _).
  assert (isProtectedFile cfg (to p) = false) as Hto.
  { unfold isProtectedFile. rewrite Hparse.
    apply andb_false_iff. right. apply N.leb_gt. lia. }
  assert (isProtectedFile cfg (from p) = false) as Hfrom
    by (unfold isProtectedFile; by rewrite Hnone).
  split; [done |]. split; [done |].
  intros f [Hf _]%list_elem_of_filter. apply Is_true_true in Hf.
  split; [congruence |]. split; [congruence |].
  apply isProtectedFile_spec in Hf as (m & Hm & _ & Hmax).
  rewrite Hm, Hparse. intros [= ->]. lia.
Qed.

Lemma targets_outside_protected_range_witness :
  isProtectedFile scriptConfig "21.jpg" = false ∧
  isProtectedFile scriptConfig "beach.jpg" = false ∧
  ∀ f, f ∈ protectedFilesOf map_to_list scriptConfig scenarioDir →
       f ≠ "beach.jpg" ∧ f ≠ "21.jpg" ∧
       parseLeadingNumber f ≠ parseLeadingNumber "21.jpg".
Proof.
  apply (targets_outside_protected_range byteCompare map_to_list scriptConfig
           scenarioDir {| from := "beach.jpg"; to := "21.jpg" |}).
  - exact listsDirectory_map_to_list.
  - reflexivity.
  - vm_compute. apply list_elem_of_here.
Defined.

Lemma allNumbered_forallb (dir : directory) :
  forallb (λ e, negb (fs.isFile e.2) || negb (isPhoto e.1)
                || isAlreadyNumbered e.1) (map_to_list dir) = true →
  allNumbered dir.
Proof.
  rewrite forallb_forall. intros Hall name c Hc Hphoto.
  apply elem_of_map_to_list, list_elem_of_In, Hall in Hc. simpl in Hc.
  by rewrite Hphoto in Hc.
Qed.

(** X16.  When every regular photo file of the directory carries a
    number, which includes the empty directory, the run has no
    candidate and no rename pair, does not enter the renamer, whatever
    the clock and the random draws are, and completes with the directory
    as it was; the manifest lists the photos that are there. *)
Theorem idle_run
    (naturalSort : string → string → Z)
    (readdirSync : directory → list (string * node))
    (cfg : Config) (stamps : nat → Stamp) (dir : directory) :
  listsDirectory readdirSync →
  allNumbered dir →
  toRenumberOf naturalSort readdirSync dir = [] ∧
  alreadyNumberedOf readdirSync dir = allFilesOf readdirSync dir ∧
  nextNum (allocation naturalSort readdirSync cfg dir) = START_NUMBER cfg ∧
  main naturalSort readdirSync cfg stamps dir
  = Some {| protectedFiles := protectedFilesOf readdirSync cfg dir;
            renamed := [];
            items := buildPhotoStream naturalSort (allFilesOf readdirSync dir);
            finalDir := dir |}.
Proof.
  intros Hlist Hall.
  assert (∀ name, name ∈ allFilesOf readdirSync dir →
                  isAlreadyNumbered name = true) as Hnum.
  { intros name (Hphoto & c & Hc)%elem_of_allFilesOf; [|done].
    by apply (Hall name c). }
  assert (toRenumberOf naturalSort readdirSync dir = []) as Hnone.
  { apply elem_of_nil_inv. intros name [Hin Hn]%elem_of_toRenumberOf.
    apply Hnum in Hin. congruence. }
  split; [done |]. split; [|split].
  - unfold alreadyNumberedOf.
    induction (allFilesOf readdirSync dir) as [|f files IH]; [done |].
    rewrite filter_cons_True
      by (apply Is_true_true, Hnum, list_elem_of_here).
    f_equal. apply IH. intros name Hin. apply Hnum. by right.
  - unfold allocation. by rewrite Hnone.
  - unfold main, renameStep.
    by rewrite (renamePairsOf_no_candidates _ _ _ _ Hnone).
Qed.

Lemma idle_run_witness :
  toRenumberOf byteCompare map_to_list numberedDir = [] ∧
  alreadyNumberedOf map_to_list numberedDir
  = allFilesOf map_to_list numberedDir ∧
  nextNum (allocation byteCompare map_to_list scriptConfig numberedDir)
  = START_NUMBER scriptConfig ∧
  main byteCompare map_to_list scriptConfig sampleStamps numberedDir
  = Some {| protectedFiles :=
              protectedFilesOf map_to_list scriptConfig numberedDir;
            renamed := [];
            items := buildPhotoStream byteCompare
                       (allFilesOf map_to_list numberedDir);
            finalDir := numberedDir |}.
Proof.
  apply (idle_run byteCompare map_to_list scriptConfig sampleStamps
           numberedDir).
  - exact listsDirectory_map_to_list.
  - apply allNumbered_forallb. vm_compute. reflexivity.
Defined.
